(** * Call-and-response MIDI interaction (magenta/interfaces/midi/midi_interaction.py)

    A shallow embedding of [adjust_sequence_times], of the parameter
    properties of [MidiInteraction] and [CallAndResponseMidiInteraction],
    of the two constructors and of one iteration of the main loop of
    [CallAndResponseMidiInteraction.run].

    Times are Python floats, that is IEEE 754 binary64 numbers: they are
    modelled by Rocq's primitive floats, whose operations are the binary64
    ones.  NoteSequence protocol buffers are mutable objects handled by
    reference: they live in a store, and the functions of the module are
    written in a state-and-exception monad over that store. *)

From Stdlib Require Import ZArith QArith Qabs Qround Floats Lia.
From stdpp Require Import base option list.

Set Warnings "-inexact-float".

#[local] Open Scope Z_scope.

(** ** Python exceptions and the state-and-exception monad *)

Inductive Exn : Type :=
| ValueError
| IndexError
| ZeroDivisionError
| ReferenceError.

Inductive Res (St A : Type) : Type :=
| Ok (a : A) (s : St)
| Raise (e : Exn).
Arguments Ok {St A} a s.
Arguments Raise {St A} e.

Definition M (St A : Type) : Type := St -> Res St A.

Definition ret {St A} (a : A) : M St A := fun s => Ok a s.

Definition bind {St A B} (m : M St A) (k : A -> M St B) : M St B :=
  fun s => match m s with
           | Ok a s' => k a s'
           | Raise e => Raise e
           end.

Definition raise {St A} (e : Exn) : M St A := fun _ => Raise e.
Definition get {St} : M St St := fun s => Ok s s.
Definition gets {St A} (f : St -> A) : M St A := fun s => Ok (f s) s.
Definition modify {St} (f : St -> St) : M St unit := fun s => Ok tt (f s).

Declare Scope py_scope.
Delimit Scope py_scope with py.
Notation "x <- m ;; k" := (bind m (fun x => k))
  (at level 20, m at level 99, k at level 200, only parsing) : py_scope.
Notation "m ;; k" := (bind m (fun _ => k))
  (at level 100, k at level 200, only parsing) : py_scope.

(** [when c m]: a Python [if c: m] without [else]. *)
Definition when {St} (c : bool) (m : M St unit) : M St unit :=
  if c then m else ret tt.

(** [for i in range(n): body i]. *)
Fixpoint for_range_from {St} (i : nat) (n : nat) (body : nat -> M St unit) : M St unit :=
  match n with
  | O => ret tt
  | S n' => bind (body i) (fun _ => for_range_from (S i) n' body)
  end.

Definition for_range {St} (n : nat) (body : nat -> M St unit) : M St unit :=
  for_range_from 0 n body.

(** ** Binary64 helpers *)

Module F.
#[local] Open Scope float_scope.

(** Python's conversion of an int to a float: the nearest double. *)
Definition of_Z (n : Z) : float :=
  SF2Prim (binary_normalize prec emax n 0 false).

(** C's [floor] on a double. *)
Definition floor (x : float) : float :=
  match Prim2SF x with
  | S754_finite s m e =>
      if (0 <=? e)%Z then x
      else
        let n := ((if s then Zneg m else Zpos m) / 2 ^ (- e))%Z in
        if (n =? 0)%Z then (if s then neg_zero else zero) else of_Z n
  | _ => x
  end.

(** C's [ceil] on a double. *)
Definition ceil (x : float) : float := - floor (- x).

(** C's [fmod] on doubles: the exact remainder of the division that
    truncates the quotient, with the sign of the dividend. *)
Definition fmod (x y : float) : float :=
  match Prim2SF x, Prim2SF y with
  | S754_nan, _ | _, S754_nan => nan
  | S754_infinity _, _ => nan
  | _, S754_zero _ => nan
  | S754_zero _, _ => x
  | S754_finite _ _ _, S754_infinity _ => x
  | S754_finite sx mx ex, S754_finite _ my ey =>
      let e := Z.min ex ey in
      let r := ((Zpos mx * 2 ^ (ex - e)) mod (Zpos my * 2 ^ (ey - e)))%Z in
      let f := Z.ldexp (PrimFloat.of_uint63 (Uint63.of_Z r)) e in
      if sx then - f else f
  end.

(** Python's truth value of a float: [x != 0.0] (a NaN is true). *)
Definition truthy (x : float) : bool := negb (x =? 0).

(** CPython's [float_divmod], first component: [vx // wx]. *)
Definition floordiv (vx wx : float) : Exn + float :=
  if wx =? 0 then inl ZeroDivisionError
  else
    let mod_ := fmod vx wx in
    let div := (vx - mod_) / wx in
    let div :=
      if truthy mod_ then
        if negb (Bool.eqb (wx <? 0) (mod_ <? 0)) then div - 1 else div
      else div in
    inr (if truthy div then
           let floordiv := floor div in
           if 0.5 <? div - floordiv then floordiv + 1 else floordiv
         else div * div * vx / wx).
End F.


(** ** NoteSequence protocol buffers *)

Record Note : Type := mkNote {
  pitch : Z;
  velocity : Z;
  start_time : float;
  end_time : float
}.

Record Tempo : Type := mkTempo {
  qpm : float
}.

Record NoteSequence : Type := mkNoteSequence {
  notes : list Note;
  total_time : float;
  tempos : list Tempo
}.

(** [music_pb2.NoteSequence()]: every field at its default. *)
Definition NoteSequence_new : NoteSequence :=
  mkNoteSequence [] 0%float [].

Definition set_start_time (t : float) (n : Note) : Note :=
  mkNote (pitch n) (velocity n) t (end_time n).
Definition set_end_time (t : float) (n : Note) : Note :=
  mkNote (pitch n) (velocity n) (start_time n) t.
Definition set_notes (ns : list Note) (s : NoteSequence) : NoteSequence :=
  mkNoteSequence ns (total_time s) (tempos s).
Definition set_total_time (t : float) (s : NoteSequence) : NoteSequence :=
  mkNoteSequence (notes s) t (tempos s).
Definition set_tempos (ts : list Tempo) (s : NoteSequence) : NoteSequence :=
  mkNoteSequence (notes s) (total_time s) ts.

(** ** The store of NoteSequence objects

    A reference is an index in the store; an object is never freed, and a
    new object gets the next index, so no two live objects share one. *)

Abbreviation ref := nat.
Abbreviation Heap := (list NoteSequence).

#[local] Open Scope py_scope.

(** Object creation. *)
Definition alloc (v : NoteSequence) : M Heap ref :=
  fun h => Ok (length h) (h ++ [v]).

(** Reading an object through a reference. *)
Definition deref (r : ref) : M Heap NoteSequence :=
  fun h => match h !! r with
           | Some v => Ok v h
           | None => Raise ReferenceError
           end.

(** In-place update of an object. *)
Definition update (r : ref) (f : NoteSequence -> NoteSequence) : M Heap unit :=
  v <- deref r ;;
  modify (fun h => <[r := f v]> h).

(** [dst.CopyFrom(src)]: [dst] becomes a deep copy of [src]. *)
Definition CopyFrom (dst src : ref) : M Heap unit :=
  v <- deref src ;;
  update dst (fun _ => v).

(** In-place update of [r.notes[i]]. *)
Definition update_note (r : ref) (i : nat) (f : Note -> Note) : M Heap unit :=
  v <- deref r ;;
  match notes v !! i with
  | Some n => update r (set_notes (<[i := f n]> (notes v)))
  | None => raise IndexError
  end.

(** ** [adjust_sequence_times] *)

Definition adjust_sequence_times (sequence : ref) (delta_time : float) : M Heap ref :=
  retimed_sequence <- alloc NoteSequence_new ;;
  CopyFrom retimed_sequence sequence ;;
  n <- gets (fun h => from_option (length ∘ notes) 0%nat (h !! retimed_sequence)) ;;
  for_range n (fun i =>
    update_note retimed_sequence i
      (fun note => set_start_time (start_time note + delta_time)%float note) ;;
    update_note retimed_sequence i
      (fun note => set_end_time (end_time note + delta_time)%float note)) ;;
  update retimed_sequence
    (fun s => set_total_time (total_time s + delta_time)%float s) ;;
  ret retimed_sequence.


(** What [adjust_sequence_times] computes, on values: every note and the
    total time moved by [delta_time], everything else as it was. *)
Definition shift_note (delta_time : float) (n : Note) : Note :=
  mkNote (pitch n) (velocity n)
         (start_time n + delta_time)%float (end_time n + delta_time)%float.

Definition retimed (v : NoteSequence) (delta_time : float) : NoteSequence :=
  mkNoteSequence (shift_note delta_time <$> notes v)
                 (total_time v + delta_time)%float (tempos v).

(** Shifting by [delta] and then by [-delta]. *)
Definition shift_round_trip (sequence : ref) (delta : float) : M Heap ref :=
  shifted <- adjust_sequence_times sequence delta ;;
  adjust_sequence_times shifted (- delta)%float.

(** The timestamps of a sequence, in order: start and end of every note,
    then the total time. *)
Definition timestamps (v : NoteSequence) : list float :=
  flat_map (fun n => [start_time n; end_time n]) (notes v) ++ [total_time v].

(** [delta] can be added to [t] and taken away again without rounding
    error. *)
Definition restores (delta t : float) : Prop :=
  (t + delta + - delta)%float = t.

(** ** Collaborators: MIDI hub, generators, trimming

    The hub, the generators and [magenta.music.trim_note_sequence] live
    outside this module.  The hub is seen through [control_value] only, an
    arbitrary function from an optional control number to an optional
    value; a generator is an arbitrary function from a seed and options to
    a sequence; trimming is a parameter of the main loop. *)

Inductive MidiSignal : Type :=
| mkMidiSignal (id : Z).

Record MidiHub : Type := mkMidiHub {
  control_value : option Z -> option Z
}.

Record GeneratorOptions : Type := mkGeneratorOptions {
  input_section_start : float;
  input_section_end : float;
  generate_section_start : float;
  generate_section_end : float;
  temperature_arg : float
}.

Record SequenceGenerator : Type := mkSequenceGenerator {
  details_id : Z;
  generate : NoteSequence -> GeneratorOptions -> NoteSequence
}.

(** ** Constructors *)

(** The arguments of [CallAndResponseMidiInteraction.__init__] (the first
    five but [midi_hub] are those of [MidiInteraction.__init__]). *)
Record Args : Type := mkArgs {
  sequence_generators : list SequenceGenerator;
  qpm_arg : float;
  generator_select_control_number : option Z;
  clock_signal : option MidiSignal;
  tick_duration_arg : option float;
  end_call_signal : option MidiSignal;
  panic_signal : option MidiSignal;
  mutate_signal : option MidiSignal;
  allow_overlap : bool;
  metronome_channel : option Z;
  min_listen_ticks_control_number : option Z;
  max_listen_ticks_control_number : option Z;
  response_ticks_control_number : option Z;
  tempo_control_number : option Z;
  temperature_control_number : option Z;
  loop_control_number : option Z;
  state_control_number : option Z
}.

(** The object under construction: the attributes set from the arguments
    and the [threading.Event]s created so far. *)
Record Self : Type := mkSelf {
  args : Args;
  _stop_signal : bool;
  _end_call : bool;
  _panic : bool;
  _mutate : bool
}.

(** [MidiInteraction.__init__]. *)
Definition MidiInteraction_init (a : Args) : Exn + Self :=
  if bool_decide (generator_select_control_number a = None)
     && (1 <? length (sequence_generators a))%nat
  then inl ValueError
  else inr (mkSelf a false false false false).

(** [[x, y].count(None)]. *)
Definition count_None {A B} (x : option A) (y : option B) : nat :=
  ((if x is None then 1 else 0) + (if y is None then 1 else 0))%nat.

(** [CallAndResponseMidiInteraction.__init__]. *)
Definition CallAndResponseMidiInteraction_init (a : Args) : Exn + Self :=
  match MidiInteraction_init a with
  | inl e => inl e
  | inr self =>
      if negb (count_None (clock_signal a) (tick_duration_arg a) =? 1)%nat
      then inl ValueError
      else inr self
  end.

(** The configuration errors of the docstrings. *)
Definition ambiguous_generator (a : Args) : Prop :=
  generator_select_control_number a = None /\
  (1 < length (sequence_generators a))%nat.

Definition clock_misconfigured (a : Args) : Prop :=
  count_None (clock_signal a) (tick_duration_arg a) <> 1%nat.

(** ** Parameters read from the hub *)

Section properties.
Variable a : Args.
Variable midi_hub : MidiHub.

Definition _BASE_QPM : Z := 60.

(** [MidiInteraction._sequence_generator]. *)
Definition _sequence_generator : Exn + SequenceGenerator :=
  let gens := sequence_generators a in
  if (length gens =? 1)%nat then
    match gens !! 0%nat with
    | Some g => inr g
    | None => inl IndexError
    end
  else
    let val := control_value midi_hub (generator_select_control_number a) in
    let val := match val with None => 0 | Some v => v end in
    if (length gens =? 0)%nat then inl ZeroDivisionError
    else
      match gens !! Z.to_nat (val mod Z.of_nat (length gens)) with
      | Some g => inr g
      | None => inl IndexError
      end.

(** [MidiInteraction._qpm]. *)
Definition _qpm : float :=
  match control_value midi_hub (tempo_control_number a) with
  | None => qpm_arg a
  | Some val => F.of_Z (val + _BASE_QPM)
  end.

(** [MidiInteraction._temperature], with the defaults of its signature. *)
Definition _temperature_with (min_temp max_temp default : float) : float :=
  match control_value midi_hub (temperature_control_number a) with
  | None => default
  | Some val => (min_temp + (F.of_Z val / 127) * (max_temp - min_temp))%float
  end.

Definition _temperature : float := _temperature_with 0.1 2.0 1.0.

(** [CallAndResponseMidiInteraction._min_listen_ticks]. *)
Definition _min_listen_ticks : Z :=
  match control_value midi_hub (min_listen_ticks_control_number a) with
  | None => 0
  | Some val => val
  end.

(** A listen limit: [float('inf')] or an int. *)
Inductive Limit : Type :=
| inf
| ticks (n : Z).

(** [CallAndResponseMidiInteraction._max_listen_ticks]:
    [float('inf') if not val else val]. *)
Definition _max_listen_ticks : Limit :=
  match control_value midi_hub (max_listen_ticks_control_number a) with
  | None => inf
  | Some val => if val =? 0 then inf else ticks val
  end.

(** [n >= limit] for an int [n]. *)
Definition reaches (n : Z) (limit : Limit) : bool :=
  match limit with
  | inf => false
  | ticks m => m <=? n
  end.

(** [CallAndResponseMidiInteraction._should_loop], as a truth value:
    [loop_control_number and control_value(loop_control_number) == 127]. *)
Definition _should_loop : bool :=
  match loop_control_number a with
  | None => false
  | Some n =>
      if n =? 0 then false
      else bool_decide (control_value midi_hub (Some n) = Some 127)
  end.
End properties.

(** The temperature the claim describes, in exact rational arithmetic:
    [1/10 + v/127 * (2 - 1/10)]. *)
Definition exact_temperature (v : Z) : Q :=
  (1 # 10) + (inject_Z v / 127) * (2 - (1 # 10)).

(** The rational a finite double stands for. *)
Definition Q_of_float (x : float) : option Q :=
  match Prim2SF x with
  | S754_zero _ => Some 0%Q
  | S754_finite s m e =>
      let n := if s then Zneg m else Zpos m in
      Some (if (0 <=? e)%Z then inject_Z (n * 2 ^ e)
            else (n # Z.to_pos (2 ^ (- e))))
  | _ => None
  end.

(** ** The state of a running interaction *)

Inductive State : Type :=
| IDLE
| LISTENING
| RESPONDING.

(** [State.IDLE = 0], [State.LISTENING = 1], [State.RESPONDING = 2]. *)
Definition State_value (s : State) : Z :=
  match s with
  | IDLE => 0
  | LISTENING => 1
  | RESPONDING => 2
  end.

(** What the loop does to its collaborators, in order. *)
Inductive Event : Type :=
| start_capture (qpm start_time : float)
| start_playback (sequence : ref)
| start_metronome (qpm start_time : float) (channel : Z)
| send_control_change (number value : Z)
| log_state (s : State)
| log_input_too_short (listen_ticks min_listen_ticks : Z)
| log_generating (generator_id : Z)
| call_generate (generator_id : Z) (input : ref) (options : GeneratorOptions)
| log_response_too_late (push_ticks : float)
| update_sequence (sequence : ref) (start_time : option float)
| log_ignoring_mutate
| player_stop.

Record World : Type := mkWorld {
  (** the NoteSequence objects *)
  heap : Heap;
  (** the [threading.Event]s of [self] *)
  stop_signal : bool;
  end_call : bool;
  panic : bool;
  mutate : bool;
  (** [self._captor.start_time] *)
  captor_start_time : float;
  (** the local variables of [run] *)
  last_tick_time : float;
  listen_ticks : Z;
  response_sequence : ref;
  response_start_time : float;
  response_duration : float;
  (** the calls made so far *)
  trace : list Event
}.

Definition set_heap (x : Heap) (w : World) : World :=
  mkWorld x (stop_signal w) (end_call w) (panic w) (mutate w)
    (captor_start_time w) (last_tick_time w) (listen_ticks w)
    (response_sequence w) (response_start_time w) (response_duration w)
    (trace w).
Definition set_end_call (x : bool) (w : World) : World :=
  mkWorld (heap w) (stop_signal w) x (panic w) (mutate w)
    (captor_start_time w) (last_tick_time w) (listen_ticks w)
    (response_sequence w) (response_start_time w) (response_duration w)
    (trace w).
Definition set_panic (x : bool) (w : World) : World :=
  mkWorld (heap w) (stop_signal w) (end_call w) x (mutate w)
    (captor_start_time w) (last_tick_time w) (listen_ticks w)
    (response_sequence w) (response_start_time w) (response_duration w)
    (trace w).
Definition set_mutate (x : bool) (w : World) : World :=
  mkWorld (heap w) (stop_signal w) (end_call w) (panic w) x
    (captor_start_time w) (last_tick_time w) (listen_ticks w)
    (response_sequence w) (response_start_time w) (response_duration w)
    (trace w).
Definition set_captor_start_time (x : float) (w : World) : World :=
  mkWorld (heap w) (stop_signal w) (end_call w) (panic w) (mutate w)
    x (last_tick_time w) (listen_ticks w)
    (response_sequence w) (response_start_time w) (response_duration w)
    (trace w).
Definition set_last_tick_time (x : float) (w : World) : World :=
  mkWorld (heap w) (stop_signal w) (end_call w) (panic w) (mutate w)
    (captor_start_time w) x (listen_ticks w)
    (response_sequence w) (response_start_time w) (response_duration w)
    (trace w).
Definition set_listen_ticks (x : Z) (w : World) : World :=
  mkWorld (heap w) (stop_signal w) (end_call w) (panic w) (mutate w)
    (captor_start_time w) (last_tick_time w) x
    (response_sequence w) (response_start_time w) (response_duration w)
    (trace w).
Definition set_response_sequence (x : ref) (w : World) : World :=
  mkWorld (heap w) (stop_signal w) (end_call w) (panic w) (mutate w)
    (captor_start_time w) (last_tick_time w) (listen_ticks w)
    x (response_start_time w) (response_duration w)
    (trace w).
Definition set_response_start_time (x : float) (w : World) : World :=
  mkWorld (heap w) (stop_signal w) (end_call w) (panic w) (mutate w)
    (captor_start_time w) (last_tick_time w) (listen_ticks w)
    (response_sequence w) x (response_duration w)
    (trace w).
Definition set_response_duration (x : float) (w : World) : World :=
  mkWorld (heap w) (stop_signal w) (end_call w) (panic w) (mutate w)
    (captor_start_time w) (last_tick_time w) (listen_ticks w)
    (response_sequence w) (response_start_time w) x
    (trace w).
Definition set_trace (x : list Event) (w : World) : World :=
  mkWorld (heap w) (stop_signal w) (end_call w) (panic w) (mutate w)
    (captor_start_time w) (last_tick_time w) (listen_ticks w)
    (response_sequence w) (response_start_time w) (response_duration w)
    x.


(** A computation on the store, run in the world. *)
Definition on_heap {A} (m : M Heap A) : M World A :=
  fun w => match m (heap w) with
           | Ok x h => Ok x (set_heap h w)
           | Raise e => Raise e
           end.

(** A call to a collaborator, or a log line. *)
Definition emit (e : Event) : M World unit :=
  modify (fun w => set_trace (trace w ++ [e]) w).

Definition assign {A} (set : A -> World -> World) (x : A) : M World unit :=
  modify (set x).

Definition lift_exn {St A} (x : Exn + A) : M St A :=
  match x with
  | inl e => raise e
  | inr v => ret v
  end.

(** Python's [max] over a non-empty iterable of floats, [first] being its
    first item: a later item replaces the maximum when it is greater. *)
Definition py_max (first : float) (rest : list float) : float :=
  fold_left (fun m x => if (m <? x)%float then x else m) rest first.

(** Python's truth value of an optional int. *)
Definition truthy (val : option Z) : bool :=
  match val with
  | None => false
  | Some v => negb (v =? 0)
  end.

(** The clock readings of one tick: [time.time()] is read when the
    lateness of a response is tested, and again when the number of ticks to
    push it by is computed. *)
Record Clock : Type := mkClock {
  time_at_test : float;
  time_at_push : float
}.

(** ** The main loop *)

Section main_loop.
(** [magenta.music.trim_note_sequence]. *)
Variable trim_note_sequence : NoteSequence -> float -> float -> NoteSequence.

Variable a : Args.

(** [_update_state]. *)
Definition _update_state (state : State) : M World unit :=
  when (bool_decide (state_control_number a <> None))
    (emit (send_control_change
             (default 0 (state_control_number a)) (State_value state))) ;;
  emit (log_state state).

Section tick.
(** The hub as it is during the tick, and the clock. *)
Variable midi_hub : MidiHub.
Variable clock : Clock.

(** [_generate]. *)
Definition _generate (input_sequence : ref)
    (zero_time response_start_time response_end_time : float) : M World ref :=
  let response_start_time := (response_start_time - zero_time)%float in
  let response_end_time := (response_end_time - zero_time)%float in
  let generator_options :=
    mkGeneratorOptions 0 response_start_time
                       response_start_time response_end_time
                       (_temperature a midi_hub) in
  generator <- lift_exn (_sequence_generator a midi_hub) ;;
  emit (log_generating (details_id generator)) ;;
  seed <- on_heap (adjust_sequence_times input_sequence (- zero_time)%float) ;;
  seed_value <- on_heap (deref seed) ;;
  emit (call_generate (details_id generator) seed generator_options) ;;
  generated <-
    on_heap (alloc (generate generator seed_value generator_options)) ;;
  generated_value <- on_heap (deref generated) ;;
  trimmed <-
    on_heap (alloc (trim_note_sequence generated_value
                      response_start_time response_end_time)) ;;
  on_heap (adjust_sequence_times trimmed zero_time).

(** Lines 381-384: the panic signal. *)
Definition handle_panic : M World unit :=
  is_set <- gets panic ;;
  when is_set
    (empty <- on_heap (alloc NoteSequence_new) ;;
     assign set_response_sequence empty ;;
     emit (update_sequence empty None) ;;
     assign set_panic false).

(** Lines 389-391: the metronome follows the current tempo. *)
Definition restart_metronome (tick_time : float) : M World unit :=
  when (bool_decide (clock_signal a = None)
        && bool_decide (metronome_channel a <> None))
    (emit (start_metronome (_qpm a midi_hub) tick_time
             (default 0 (metronome_channel a)))).

(** Line 392: [captured_sequence.tempos[0].qpm = self._qpm]. *)
Definition set_captured_qpm (captured_sequence : ref) : M World unit :=
  v <- on_heap (deref captured_sequence) ;;
  match tempos v with
  | [] => raise IndexError
  | _ :: ts =>
      on_heap (update captured_sequence
                 (set_tempos (mkTempo (_qpm a midi_hub) :: ts)))
  end.

(** Lines 395-396. *)
Definition last_end_time_of (captured : NoteSequence) : float :=
  match notes captured with
  | [] => 0%float
  | n :: ns => py_max (end_time n) (end_time <$> ns)
  end.

(** Lines 404-411: nothing was captured. *)
Definition keep_idling (tick_time : float) : M World unit :=
  current <- gets response_sequence ;;
  response <- on_heap (deref current) ;;
  when (total_time response <=? tick_time)%float (_update_state IDLE) ;;
  capture_start_time <- gets captor_start_time ;;
  when (capture_start_time <? tick_time)%float
    (assign set_captor_start_time tick_time) ;;
  assign set_end_call false ;;
  assign set_listen_ticks 0.

(** Lines 451-459: a response that took too long is pushed to a later
    tick. *)
Definition push_late_response (tick_duration : float) : M World unit :=
  start <- gets response_start_time ;;
  when (tick_duration / 4 <=? time_at_test clock - start)%float
    (quotient <-
       lift_exn (F.floordiv (time_at_push clock - start)%float
                            tick_duration) ;;
     let push_ticks := (quotient + 1)%float in
     assign set_response_start_time
       (start + push_ticks * tick_duration)%float ;;
     generated <- gets response_sequence ;;
     pushed <-
       on_heap (adjust_sequence_times generated
                  (push_ticks * tick_duration)%float) ;;
     assign set_response_sequence pushed ;;
     emit (log_response_too_late push_ticks)).

(** Lines 422-470: create the response and start its playback. *)
Definition respond (captured_sequence : ref) (silent_tick : bool)
    (tick_time tick_duration : float) : M World unit :=
  _update_state RESPONDING ;;
  capture_start_time <- gets captor_start_time ;;
  moved <-
    (if silent_tick then
       captured_sequence <-
         on_heap (adjust_sequence_times captured_sequence tick_duration) ;;
       on_heap (update captured_sequence (set_total_time tick_time)) ;;
       ret (captured_sequence, (capture_start_time + tick_duration)%float)
     else ret (captured_sequence, capture_start_time)) ;;
  let captured_sequence := fst moved in
  let capture_start_time := snd moved in
  let num_ticks := control_value midi_hub (response_ticks_control_number a) in
  let duration :=
    if truthy num_ticks
    then (F.of_Z (default 0%Z num_ticks) * tick_duration)%float
    else (tick_time - capture_start_time)%float in
  assign set_response_duration duration ;;
  assign set_response_start_time tick_time ;;
  generated <-
    _generate captured_sequence capture_start_time tick_time
              (tick_time + duration)%float ;;
  assign set_response_sequence generated ;;
  push_late_response tick_duration ;;
  response <- gets response_sequence ;;
  start <- gets response_start_time ;;
  emit (update_sequence response (Some start)) ;;
  if allow_overlap a
  then assign set_captor_start_time start
  else assign set_captor_start_time (start + duration)%float.

(** Lines 415-474: the call has ended. *)
Definition end_of_call (captured_sequence : ref) (silent_tick : bool)
    (tick_time tick_duration : float) : M World unit :=
  listened <- gets listen_ticks ;;
  (if listened <? _min_listen_ticks a midi_hub then
     emit (log_input_too_short listened (_min_listen_ticks a midi_hub)) ;;
     assign set_captor_start_time tick_time
   else respond captured_sequence silent_tick tick_time tick_duration) ;;
  assign set_end_call false ;;
  assign set_listen_ticks 0.

(** The condition of line 412-414. *)
Definition call_ends (end_call silent_tick : bool) (listen_ticks : Z) : bool :=
  end_call || silent_tick
  || reaches listen_ticks (_max_listen_ticks a midi_hub).

(** Lines 404-477: the three-way branch on the captured notes. *)
Definition handle_call (captured_sequence : ref) (silent_tick : bool)
    (tick_time tick_duration : float) : M World unit :=
  captured <- on_heap (deref captured_sequence) ;;
  match notes captured with
  | [] => keep_idling tick_time
  | _ :: _ =>
      end_call_is_set <- gets end_call ;;
      listened <- gets listen_ticks ;;
      if call_ends end_call_is_set silent_tick listened
      then end_of_call captured_sequence silent_tick tick_time tick_duration
      else _update_state LISTENING
  end.

(** Lines 480-482: a mutate request with nothing to mutate. *)
Definition drop_empty_mutate : M World unit :=
  is_set <- gets mutate ;;
  current <- gets response_sequence ;;
  response <- on_heap (deref current) ;;
  when (is_set && bool_decide (notes response = []))
    (assign set_mutate false ;;
     emit log_ignoring_mutate).

(** Lines 484-501: loop or mutate the previous response. *)
Definition loop_or_mutate (tick_time : float) : M World unit :=
  current <- gets response_sequence ;;
  response <- on_heap (deref current) ;;
  is_set <- gets mutate ;;
  when ((total_time response <=? tick_time)%float
        && (_should_loop a midi_hub || is_set))
    (when is_set
       (start <- gets response_start_time ;;
        duration <- gets response_duration ;;
        let new_start_time := (start + duration)%float in
        let new_end_time := (new_start_time + duration)%float in
        mutated <-
          _generate current start new_start_time new_end_time ;;
        assign set_response_sequence mutated ;;
        assign set_response_start_time new_start_time ;;
        assign set_mutate false) ;;
     previous <- gets response_sequence ;;
     start <- gets response_start_time ;;
     realigned <-
       on_heap (adjust_sequence_times previous (tick_time - start)%float) ;;
     assign set_response_sequence realigned ;;
     assign set_response_start_time tick_time ;;
     emit (update_sequence realigned (Some tick_time))).

(** Lines 386-503: the body of the loop after the panic signal has been
    handled. *)
Definition tick_logic (captured_sequence : ref) : M World unit :=
  captured <- on_heap (deref captured_sequence) ;;
  let tick_time := total_time captured in
  restart_metronome tick_time ;;
  set_captured_qpm captured_sequence ;;
  previous_tick_time <- gets last_tick_time ;;
  let tick_duration := (tick_time - previous_tick_time)%float in
  let last_end_time := last_end_time_of captured in
  let silent_tick := (last_end_time <=? previous_tick_time)%float in
  when (negb silent_tick)
    (listened <- gets listen_ticks ;;
     assign set_listen_ticks (listened + 1)) ;;
  handle_call captured_sequence silent_tick tick_time tick_duration ;;
  drop_empty_mutate ;;
  loop_or_mutate tick_time ;;
  assign set_last_tick_time tick_time.

(** Lines 377-503: one iteration of the loop, on the sequence [captured]
    that the captor yields (a new object).  The result is [false] when
    the loop is left through [break]. *)
Definition run_tick (captured : NoteSequence) : M World bool :=
  captured_sequence <- on_heap (alloc captured) ;;
  stop <- gets stop_signal ;;
  if stop then ret false
  else
    handle_panic ;;
    tick_logic captured_sequence ;;
    ret true.
End tick.

(** What the captor thread and the hub supply for one iteration: the
    signals matched since the previous one (their callbacks set the
    events), a call to [stop], the control values, the clock readings and
    the captured sequence. *)
Record Tick : Type := mkTick {
  end_call_received : bool;
  panic_received : bool;
  mutate_received : bool;
  stop_called : bool;
  hub : MidiHub;
  clock_readings : Clock;
  captured_now : NoteSequence
}.

(** The callbacks and [stop], on the events of [self]. *)
Definition deliver (t : Tick) (w : World) : World :=
  mkWorld (heap w)
    (stop_signal w || stop_called t)
    (end_call w || (end_call_received t
                    && bool_decide (end_call_signal a <> None)))
    (panic w || (panic_received t && bool_decide (panic_signal a <> None)))
    (mutate w || (mutate_received t && bool_decide (mutate_signal a <> None)))
    (captor_start_time w) (last_tick_time w) (listen_ticks w)
    (response_sequence w) (response_start_time w) (response_duration w)
    (trace w).

(** The [for] loop of [run] over the sequences the captor yields. *)
Fixpoint iterate (ts : list Tick) : M World unit :=
  match ts with
  | [] => ret tt
  | t :: ts' =>
      modify (deliver t) ;;
      continue <- run_tick (hub t) (clock_readings t) (captured_now t) ;;
      if continue then iterate ts' else ret tt
  end.

(** The state in which [run] enters its loop, when it starts at
    [start_time] with the hub [midi_hub] and reads the clock for
    [last_tick_time] at [now]: an empty response at reference 0. *)
Definition initial_world (self : Self) (midi_hub : MidiHub)
    (start_time now : float) : World :=
  mkWorld [NoteSequence_new]
    (_stop_signal self) (_end_call self) (_panic self) (_mutate self)
    start_time now 0 0%nat 0%float 0%float
    ([start_capture (_qpm a midi_hub) start_time]
     ++ (if bool_decide (clock_signal a = None)
            && bool_decide (metronome_channel a <> None)
         then [start_metronome (_qpm a midi_hub) start_time
                 (default 0 (metronome_channel a))]
         else [])
     ++ [start_playback 0%nat]).

(** [run]. *)
Definition run (self : Self) (midi_hub : MidiHub) (start_time now : float)
    (ts : list Tick) : Res World unit :=
  (iterate ts ;; emit player_stop) (initial_world self midi_hub start_time now).
End main_loop.


(** ** The stages of a tick

    The quantities that [run_tick] computes from the captured sequence
    [captured] and the world [w] it starts in, and the worlds it goes
    through before the three-way branch on the captured notes. *)

Section stages.
Variable a : Args.
Variable midi_hub : MidiHub.
Variable captured : NoteSequence.
Variable w : World.

(** The reference of the captured sequence. *)
Definition captured_ref : ref := length (heap w).

(** [tick_time], [tick_duration], [silent_tick]. *)
Definition tick_time_of : float := total_time captured.

Definition tick_duration_of : float :=
  (total_time captured - last_tick_time w)%float.

Definition silent_tick_of : bool :=
  (last_end_time_of captured <=? last_tick_time w)%float.

(** [listen_ticks] after line 402. *)
Definition listened_of : Z :=
  if silent_tick_of then listen_ticks w else listen_ticks w + 1.

(** The world once the panic signal has been handled: with a new empty
    response, issued to the player, when it was set. *)
Definition world_after_panic : World :=
  if panic w then
    set_panic false
      (set_trace (trace w ++ [update_sequence (S (length (heap w))) None])
         (set_response_sequence (S (length (heap w)))
            (set_heap (heap w ++ [captured; NoteSequence_new]) w)))
  else set_heap (heap w ++ [captured]) w.

(** The captured sequence after line 392. *)
Definition captured_with_qpm : NoteSequence :=
  set_tempos (mkTempo (_qpm a midi_hub) :: tail (tempos captured)) captured.

(** The world at line 404. *)
Definition world_before_call : World :=
  let w1 := world_after_panic in
  let w2 :=
    if bool_decide (clock_signal a = None)
       && bool_decide (metronome_channel a <> None)
    then set_trace
           (trace w1 ++ [start_metronome (_qpm a midi_hub) tick_time_of
                           (default 0 (metronome_channel a))]) w1
    else w1 in
  set_listen_ticks listened_of
    (set_heap (<[captured_ref := captured_with_qpm]> (heap w2)) w2).
End stages.

(** Lines 479-503: what follows the three-way branch. *)
Definition after_call
    (trim_note_sequence : NoteSequence -> float -> float -> NoteSequence)
    (a : Args) (midi_hub : MidiHub) (tick_time : float) : M World bool :=
  drop_empty_mutate ;;
  loop_or_mutate trim_note_sequence a midi_hub tick_time ;;
  assign set_last_tick_time tick_time ;;
  ret true.

(** The response is looped at [tick_time]: it has been played and looping
    is on. *)
Definition looping (a : Args) (midi_hub : MidiHub) (tick_time : float)
    (response : NoteSequence) : bool :=
  (total_time response <=? tick_time)%float && _should_loop a midi_hub.

(** The world after lines 479-503 when no response is generated there:
    from [w], in which the response is [response]. *)
Definition world_after_call (a : Args) (midi_hub : MidiHub) (tick_time : float)
    (response : NoteSequence) (w : World) : World :=
  let w1 :=
    if mutate w && bool_decide (notes response = [])
    then set_trace (trace w ++ [log_ignoring_mutate]) (set_mutate false w)
    else w in
  let w2 :=
    if looping a midi_hub tick_time response
    then set_trace
           (trace w1 ++ [update_sequence (length (heap w)) (Some tick_time)])
           (set_response_start_time tick_time
              (set_response_sequence (length (heap w))
                 (set_heap
                    (heap w ++ [retimed response
                                  (tick_time - response_start_time w)%float])
                    w1)))
    else w1 in
  set_last_tick_time tick_time w2.

(** The world after the three-way branch when the call was too short:
    from [w], the world at the branch. *)
Definition world_after_short_call (a : Args) (midi_hub : MidiHub)
    (tick_time : float) (w : World) : World :=
  set_listen_ticks 0
    (set_end_call false
       (set_captor_start_time tick_time
          (set_trace
             (trace w ++ [log_input_too_short (listen_ticks w)
                            (_min_listen_ticks a midi_hub)]) w))).

(** The event is a call to a generator. *)
Definition is_call_generate (e : Event) : Prop :=
  exists id input options, e = call_generate id input options.

(** ** The response to a call *)

Section response.
Variable trim_note_sequence : NoteSequence -> float -> float -> NoteSequence.
Variable a : Args.
Variable midi_hub : MidiHub.

(** The options [_generate] passes to the generator. *)
Definition options_of (zero_time response_start_time response_end_time : float)
    : GeneratorOptions :=
  mkGeneratorOptions 0 (response_start_time - zero_time)%float
    (response_start_time - zero_time)%float
    (response_end_time - zero_time)%float
    (_temperature a midi_hub).

(** The sequence [_generate] returns, from the value of its input. *)
Definition generated_response (generator : SequenceGenerator)
    (input : NoteSequence)
    (zero_time response_start_time response_end_time : float) : NoteSequence :=
  retimed
    (trim_note_sequence
       (generate generator (retimed input (- zero_time)%float)
          (options_of zero_time response_start_time response_end_time))
       (response_start_time - zero_time)%float
       (response_end_time - zero_time)%float)
    zero_time.

Variable captured : NoteSequence.
Variable w : World.

(** The call and its start as [respond] passes them to [_generate]: moved
    by one tick when the call was ended by a silent tick. *)
Definition call_sequence : NoteSequence :=
  if silent_tick_of captured w
  then set_total_time (tick_time_of captured)
         (retimed (captured_with_qpm a midi_hub captured)
                  (tick_duration_of captured w))
  else captured_with_qpm a midi_hub captured.

Definition call_start_time : float :=
  if silent_tick_of captured w
  then (captor_start_time w + tick_duration_of captured w)%float
  else captor_start_time w.

(** [response_duration] as [respond] computes it. *)
Definition response_duration_of : float :=
  let num_ticks := control_value midi_hub (response_ticks_control_number a) in
  if truthy num_ticks
  then (F.of_Z (default 0%Z num_ticks) * tick_duration_of captured w)%float
  else (tick_time_of captured - call_start_time)%float.

(** The response as generated, before it is pushed for being late. *)
Definition response_of (generator : SequenceGenerator) : NoteSequence :=
  generated_response generator call_sequence call_start_time
    (tick_time_of captured)
    (tick_time_of captured + response_duration_of)%float.
End response.

(** What [_update_state] emits. *)
Definition state_events (a : Args) (state : State) : list Event :=
  match state_control_number a with
  | Some number => [send_control_change number (State_value state)]
  | None => []
  end ++ [log_state state].

(** The response is late: the test of line 452, at [tick_time]. *)
Definition late (clock : Clock) (tick_time tick_duration : float) : bool :=
  (tick_duration / 4 <=? time_at_test clock - tick_time)%float.

(** On the tick that starts in [w] with [captured], the call is answered:
    [respond] completes, the rest of the iteration being lines 472-503, and
    when it does the response is [sequence], scheduled at [start], and the
    last call made is the one issuing it to the player with that start. *)
Definition response_issued
    (trim_note_sequence : NoteSequence -> float -> float -> NoteSequence)
    (a : Args) (midi_hub : MidiHub) (clock : Clock)
    (captured : NoteSequence) (w : World)
    (sequence : NoteSequence) (start : float) : Prop :=
  exists w1,
    respond trim_note_sequence a midi_hub clock
      (captured_ref w) (silent_tick_of captured w)
      (tick_time_of captured) (tick_duration_of captured w)
      (world_before_call a midi_hub captured w) = Ok tt w1 /\
    run_tick trim_note_sequence a midi_hub clock captured w
    = after_call trim_note_sequence a midi_hub (tick_time_of captured)
        (set_listen_ticks 0 (set_end_call false w1)) /\
    heap w1 !! response_sequence w1 = Some sequence /\
    response_start_time w1 = start /\
    last (trace w1)
    = Some (update_sequence (response_sequence w1) (Some start)).

(** ** Sample collaborators and inputs

    Stand-ins for the collaborators, used to run the loop on concrete
    inputs: a trimming function that keeps the notes starting in the window
    and cuts them at its end, and a generator that continues its seed with
    one note filling the window to generate. *)

Definition sample_trim (sequence : NoteSequence) (from to : float)
    : NoteSequence :=
  mkNoteSequence
    (omap (fun n =>
             if ((start_time n <? from) || (to <=? start_time n))%float
             then None
             else Some (set_end_time
                          (if (to <? end_time n)%float then to else end_time n)
                          n))
          (notes sequence))
    (if (to <? total_time sequence)%float then to else total_time sequence)
    (tempos sequence).

Definition sample_generator : SequenceGenerator :=
  mkSequenceGenerator 1
    (fun seed options =>
       mkNoteSequence
         (notes seed ++ [mkNote 72 80 (generate_section_start options)
                                       (generate_section_end options)])
         (generate_section_end options)
         (tempos seed)).

(** One generator, a tick duration instead of a clock signal, no control
    bound. *)
Definition sample_args : Args :=
  mkArgs [sample_generator] 120 None None (Some 2%float) None None None
         false None None None None None None None None.

(** No control has received a value. *)
Definition silent_hub : MidiHub := mkMidiHub (fun _ => None).

(** A captured call: one note played during the tick from 98 s to 100 s. *)
Definition sample_call : NoteSequence :=
  mkNoteSequence [mkNote 60 100 98.5 99.5] 100 [mkTempo 120].

(** The world at the tick of 100 s, the previous one having been at 98 s,
    with the empty response of the start and the given events. *)
Definition sample_world (end_call panic mutate : bool) : World :=
  mkWorld [NoteSequence_new] false end_call panic mutate
          98 98 0 0%nat 0 0 [].

(** A sequence whose times are not all restored by a shift of 0.2 s there
    and back, and one whose times are by a shift of 0.5 s. *)
Definition inexact_sequence : NoteSequence :=
  mkNoteSequence [mkNote 60 100 0.1 0.5] 1 [mkTempo 120].

Definition dyadic_sequence : NoteSequence :=
  mkNoteSequence [mkNote 60 100 1 1.5; mkNote 64 90 2 2.25] 3 [mkTempo 120].

(** Equality of sequences, decided with the float comparison [=?] on the
    times (Python's [==]). *)
Definition Note_eqb (n1 n2 : Note) : bool :=
  (pitch n1 =? pitch n2) && (velocity n1 =? velocity n2)
  && (start_time n1 =? start_time n2)%float
  && (end_time n1 =? end_time n2)%float.

Fixpoint notes_eqb (l1 l2 : list Note) : bool :=
  match l1, l2 with
  | [], [] => true
  | n1 :: l1', n2 :: l2' => Note_eqb n1 n2 && notes_eqb l1' l2'
  | _, _ => false
  end.

Definition times_eqb (s1 s2 : NoteSequence) : bool :=
  notes_eqb (notes s1) (notes s2) && (total_time s1 =? total_time s2)%float.

(** The sequence a computation returns, read in the store it leaves. *)
Definition returned (res : Res Heap ref) : option NoteSequence :=
  match res with
  | Ok r h => h !! r
  | Raise _ => None
  end.

(** Every control bound to a number of its own. *)
Definition controlled_args : Args :=
  mkArgs [sample_generator] 120 (Some 1) None (Some 2%float) None None None
         false None (Some 2) (Some 3) (Some 4) (Some 5) (Some 6) (Some 7)
         (Some 8).

(** The hub on which the control [number] has received [value] and no
    other control has received any. *)
Definition hub_with (number value : Z) : MidiHub :=
  mkMidiHub (fun control_number =>
               match control_number with
               | Some n => if n =? number then Some value else None
               | None => None
               end).

(** The temperature for the control value [v] is finite and within
    [2^-52] of the exact one. *)
Definition temperature_close (v : Z) : bool :=
  match Q_of_float (_temperature controlled_args (hub_with 6 v)) with
  | Some q =>
      if Qle_bool (Qabs (q - exact_temperature v)) (1 # 2 ^ 52) then true
      else false
  | None => false
  end.

(** The tick of 100 s on [sample_call], with at most one listen tick. *)
Definition one_tick_limit : MidiHub := hub_with 3 1.

(** Looping is on: the loop control, number 7, is at 127. *)
Definition loop_hub : MidiHub := hub_with 7 127.

(** A tick at 100 s on which nothing was captured. *)
Definition idle_capture : NoteSequence :=
  mkNoteSequence [] 100 [mkTempo 120].

(** At least two listen ticks are asked for: the control of the minimum,
    number 2, is at 2. *)
Definition two_ticks_minimum : MidiHub := hub_with 2 2.

(** A response that has been played, from 90 s to 94 s, at reference 0. *)
Definition played_response : NoteSequence :=
  mkNoteSequence [mkNote 72 80 90 94] 94 [mkTempo 120].

Definition world_with_response (end_call panic mutate : bool) : World :=
  mkWorld [played_response] false end_call panic mutate
          98 98 0 0%nat 90 4 [].

(** The number of ticks a late response is pushed by according to the
    claim: [ceil(t / tick_duration)], for [t] the time elapsed since the
    tick. *)
Definition claimed_push_ticks (elapsed tick_duration : float) : float :=
  F.ceil (elapsed / tick_duration).

(** The generation ends exactly one tick duration after the tick. *)
Definition one_tick_late : Clock := mkClock 102 102.

(** Lines 453-454 read in exact arithmetic, on rational times: the number
    of ticks a late response is pushed by. *)
Definition exact_push_ticks (elapsed tick_duration : Q) : Z :=
  Qfloor (elapsed / tick_duration) + 1.

(** ** More samples *)

(** A second generator, which answers with silence. *)
Definition silent_generator : SequenceGenerator :=
  mkSequenceGenerator 2
    (fun seed options =>
       mkNoteSequence [] (generate_section_end options) (tempos seed)).

(** Two generators, selected by the control number 1. *)
Definition two_generator_args : Args :=
  mkArgs [sample_generator; silent_generator] 120 (Some 1) None
         (Some 2%float) None None None
         false None (Some 2) (Some 3) (Some 4) (Some 5) (Some 6) (Some 7)
         (Some 8).

(** No generator at all, and a tick duration. *)
Definition no_generator_args : Args :=
  mkArgs [] 120 None None (Some 2%float) None None None
         false None None None None None None None None.

(** ** More stages of a tick *)

(** The world after lines 404-411, nothing having been captured: from [w],
    the world at the branch, in which the response is [response]. *)
Definition world_after_idle (a : Args) (tick_time : float)
    (response : NoteSequence) (w : World) : World :=
  let w1 :=
    if (total_time response <=? tick_time)%float
    then set_trace (trace w ++ state_events a IDLE) w
    else w in
  let w2 :=
    if (captor_start_time w <? tick_time)%float
    then set_captor_start_time tick_time w1
    else w1 in
  set_listen_ticks 0 (set_end_call false w2).

(** The response at line 404, [response] being the one the tick starts
    with: a new empty one when the panic signal was set. *)
Definition response_before_call (w : World) (response : NoteSequence)
    : NoteSequence :=
  if panic w then NoteSequence_new else response.

(** The event reports the state: a control change or the log line of
    [_update_state]. *)
Definition reports_state (e : Event) : Prop :=
  match e with
  | log_state _ | send_control_change _ _ => True
  | _ => False
  end.

(** The signal [f] is set after only if it was set before. *)
Definition never_setting (f : World -> bool) (w w' : World) : Prop :=
  f w' = true -> f w = true.

(** The event opens or closes the session with the hub: the calls [run]
    makes before and after its loop. *)
Definition session_event (e : Event) : Prop :=
  match e with
  | start_capture _ _ | start_playback _ | player_stop => True
  | _ => False
  end.

(** A tick on which notes were captured and nothing else happened, and one
    before which [stop] was called. *)
Definition call_tick : Tick :=
  mkTick false false false false silent_hub (mkClock 100.1 100.1) sample_call.

Definition stop_tick : Tick :=
  mkTick false true false true silent_hub (mkClock 102.1 102.1)
    (mkNoteSequence [mkNote 60 100 98.5 99.5] 102 [mkTempo 120]).

(** A tick on which notes were captured, with at most one listen tick. *)
Definition limited_tick : Tick :=
  mkTick false false false false one_tick_limit (mkClock 100.1 100.1)
    sample_call.

(** The count of listen ticks is within [0, m). *)
Definition listen_ticks_within (m : Z) (w : World) : Prop :=
  0 <= listen_ticks w < m.

(** The [n] oldest objects of the store are as they were. *)
Definition keeping_objects (n : nat) (w w' : World) : Prop :=
  (n <= length (heap w))%nat ->
  (n <= length (heap w'))%nat /\ take n (heap w') = take n (heap w).

(** A response that is still playing at 100 s, at reference 0, with a
    mutation pending. *)
Definition playing_response : NoteSequence :=
  mkNoteSequence [mkNote 72 80 98 102] 102 [mkTempo 120].

Definition world_while_playing : World :=
  mkWorld [playing_response] false false false true
          102 98 0 0%nat 98 4 [].

(** The event belongs to the start of an iteration, lines 381-391: the
    empty response issued for a panic signal, without a start time, or
    the metronome being restarted. *)
Definition preamble_event (e : Event) : Prop :=
  match e with
  | start_metronome _ _ _ | update_sequence _ None => True
  | _ => False
  end.

(** The metronome is run by the interaction: there is no clock signal and
    there is a metronome channel. *)
Definition runs_metronome (a : Args) : bool :=
  bool_decide (clock_signal a = None)
  && bool_decide (metronome_channel a <> None).

(** Ticks of 2 s, and a metronome on channel 9. *)
Definition metronome_args : Args :=
  mkArgs [sample_generator] 120 None None (Some 2%float) None None None
         false (Some 9) None None None (Some 5) None None None.

(** The event is the log line for a call that was too short. *)
Definition is_too_short (e : Event) : Prop :=
  match e with
  | log_input_too_short _ _ => True
  | _ => False
  end.
(** ** The store: basic facts *)

Section store.
Implicit Types (h : Heap) (v w : NoteSequence) (r : ref).

Lemma lookup_last h v : (h ++ [v]) !! length h = Some v.
Proof. by rewrite lookup_app_r, Nat.sub_diag. Qed.

Lemma insert_last h v w : <[length h := w]> (h ++ [v]) = h ++ [w].
Proof. by rewrite insert_app_r_alt, Nat.sub_diag. Qed.

Lemma lookup_extend h v r w : h !! r = Some w -> (h ++ [v]) !! r = Some w.
Proof. intros H. by apply lookup_app_l_Some. Qed.

Lemma alloc_eq h v : alloc v h = Ok (length h) (h ++ [v]).
Proof. reflexivity. Qed.

Lemma deref_eq h r v : h !! r = Some v -> deref r h = Ok v h.
Proof. unfold deref. by intros ->. Qed.

Lemma update_last h v (f : NoteSequence -> NoteSequence) :
  update (length h) f (h ++ [v]) = Ok tt (h ++ [f v]).
Proof.
  unfold update, bind. rewrite (deref_eq _ _ v) by apply lookup_last.
  unfold modify. by rewrite insert_last.
Qed.

Lemma update_note_last h v i n (f : Note -> Note) :
  notes v !! i = Some n ->
  update_note (length h) i f (h ++ [v])
  = Ok tt (h ++ [set_notes (<[i := f n]> (notes v)) v]).
Proof.
  intros Hn. unfold update_note, bind.
  rewrite (deref_eq _ _ v) by apply lookup_last.
  rewrite Hn. apply update_last.
Qed.
End store.

(** ** [adjust_sequence_times] allocates the retimed copy *)

Section adjust.
Implicit Types (h : Heap) (v : NoteSequence) (d : float).

(** The loop over the notes, after [length done] iterations. *)
Lemma retime_loop h d (todo done : list Note) (tt_ : float) (tp : list Tempo) :
  for_range_from (length done) (length todo)
    (fun i =>
       update_note (length h) i
         (fun note => set_start_time (start_time note + d)%float note) ;;
       update_note (length h) i
         (fun note => set_end_time (end_time note + d)%float note))
    (h ++ [mkNoteSequence (done ++ todo) tt_ tp])
  = Ok tt (h ++ [mkNoteSequence (done ++ (shift_note d <$> todo)) tt_ tp]).
Proof.
  revert done. induction todo as [|n todo IH]; intros done; [reflexivity|].
  cbn [length for_range_from]. unfold bind at 1. unfold bind at 1.
  rewrite (update_note_last _ _ _ n) by (cbn; apply list_lookup_middle; done).
  rewrite (update_note_last _ _ _ (set_start_time (start_time n + d)%float n)).
  2:{ cbn. rewrite list_lookup_insert_eq; [done|].
      rewrite length_app. cbn. lia. }
  unfold set_notes. cbn [notes total_time tempos].
  rewrite list_insert_insert_eq.
  replace (<[length done := _]> (done ++ n :: todo))
    with ((done ++ [shift_note d n]) ++ todo).
  2:{ rewrite insert_app_r_alt, Nat.sub_diag by done.
      cbn. by rewrite <- app_assoc. }
  specialize (IH (done ++ [shift_note d n])).
  rewrite length_app in IH. cbn [length] in IH.
  rewrite Nat.add_1_r in IH. rewrite IH.
  by rewrite <- app_assoc.
Qed.

Lemma adjust_sequence_times_eq h s v d :
  h !! s = Some v ->
  adjust_sequence_times s d h = Ok (length h) (h ++ [retimed v d]).
Proof.
  intros Hs. unfold adjust_sequence_times.
  unfold bind at 1. rewrite alloc_eq.
  unfold bind at 1. unfold CopyFrom. unfold bind at 1.
  rewrite (deref_eq _ _ v) by (by apply lookup_extend).
  rewrite update_last.
  unfold bind at 1. unfold gets. rewrite lookup_last. cbn [from_option compose].
  unfold bind at 1. unfold for_range.
  destruct v as [ns tt_ tp].
  pose proof (retime_loop h d ns [] tt_ tp) as Hloop.
  cbn [length app notes] in Hloop |- *. rewrite Hloop.
  unfold bind at 1. rewrite update_last. reflexivity.
Qed.

Lemma shift_round_trip_eq h s v d :
  h !! s = Some v ->
  shift_round_trip s d h
  = Ok (S (length h)) (h ++ [retimed v d; retimed (retimed v d) (- d)%float]).
Proof.
  intros Hs. unfold shift_round_trip, bind.
  rewrite (adjust_sequence_times_eq _ _ v) by done.
  rewrite (adjust_sequence_times_eq _ _ (retimed v d)) by apply lookup_last.
  rewrite length_app, <- app_assoc. cbn. by rewrite Nat.add_1_r.
Qed.
End adjust.

(** ** Claims on [adjust_sequence_times] *)

(** C9. [adjust_sequence_times s d] returns a new object: its reference was
    not in use, every object of the store, the input among them, is left as
    it was, and the new object has the notes of the input, in the same
    number and order, each with its start and end time offset by [d], the
    total time offset by [d], and the remaining fields copied. *)
Theorem adjust_sequence_times_new_instance
    (h : Heap) (s : ref) (v : NoteSequence) (d : float) :
  h !! s = Some v ->
  exists r h',
    adjust_sequence_times s d h = Ok r h' /\
    h !! r = None /\ r <> s /\
    (forall r0 v0, h !! r0 = Some v0 -> h' !! r0 = Some v0) /\
    h' !! s = Some v /\
    exists v',
      h' !! r = Some v' /\
      length (notes v') = length (notes v) /\
      (forall i n, notes v !! i = Some n ->
         exists n', notes v' !! i = Some n' /\
           start_time n' = (start_time n + d)%float /\
           end_time n' = (end_time n + d)%float /\
           pitch n' = pitch n /\ velocity n' = velocity n) /\
      total_time v' = (total_time v + d)%float /\
      tempos v' = tempos v.
Proof.
  intros Hs. exists (length h), (h ++ [retimed v d]).
  split; [by apply adjust_sequence_times_eq|].
  split; [by apply lookup_ge_None|].
  split; [apply lookup_lt_Some in Hs; lia|].
  split; [intros; by apply lookup_extend|].
  split; [by apply lookup_extend|].
  exists (retimed v d). split; [apply lookup_last|].
  split; [cbn; by rewrite length_fmap|].
  split; [|done].
  intros i n Hn. exists (shift_note d n).
  split; [|done]. cbn. by rewrite list_lookup_fmap, Hn.
Qed.

Lemma adjust_sequence_times_new_instance_witness :
  [dyadic_sequence] !! 0%nat = Some dyadic_sequence /\
  exists r h',
    adjust_sequence_times 0%nat 0.5 [dyadic_sequence] = Ok r h' /\
    h' !! 0%nat = Some dyadic_sequence /\ r <> 0%nat.
Proof.
  split; [reflexivity|].
  destruct (adjust_sequence_times_new_instance
              [dyadic_sequence] 0%nat dyadic_sequence 0.5 eq_refl)
    as (r & h' & Heq & _ & Hne & _ & Hs & _).
  exists r, h'. auto.
Defined.

(** C2, as stated: shifting by [delta] and then by [-delta] would give back
    the sequence.  It does not for a note from 0.1 s to 0.5 s shifted by
    0.2 s: the start comes back as 0.10000000000000003 and the end as
    0.49999999999999994, and Python's [==] tells them from 0.1 and 0.5. *)
Lemma shift_round_trip_not_exact :
  returned (shift_round_trip 0%nat 0.2 [inexact_sequence])
    <> Some inexact_sequence /\
  (times_eqb inexact_sequence <$>
     returned (shift_round_trip 0%nat 0.2 [inexact_sequence])) = Some false.
Proof.
  assert (Heq : (times_eqb inexact_sequence <$>
                   returned (shift_round_trip 0%nat 0.2 [inexact_sequence]))
                = Some false) by (vm_compute; reflexivity).
  split; [|exact Heq].
  intros H. rewrite H in Heq. vm_compute in Heq. discriminate.
Qed.

Lemma shift_note_round_trip (d : float) (n : Note) :
  shift_note (- d) (shift_note d n) = n <->
  restores d (start_time n) /\ restores d (end_time n).
Proof.
  destruct n as [p vl st en]. unfold shift_note, restores. cbn. split.
  - intros H. by inversion H as [[H1 H2]]; rewrite !H1, !H2.
  - by intros [-> ->].
Qed.

Lemma shift_notes_round_trip (d : float) (ns : list Note) :
  shift_note (- d) <$> (shift_note d <$> ns) = ns <->
  Forall (restores d) (flat_map (fun n => [start_time n; end_time n]) ns).
Proof.
  induction ns as [|n ns IH]; cbn.
  - split; [constructor|done].
  - rewrite !Forall_cons. split.
    + intros H. injection H as H1 H2.
      assert (H3 : shift_note (- d) (shift_note d n) = n).
      { destruct n. unfold shift_note in *. cbn in *. congruence. }
      apply shift_note_round_trip in H3 as [H3 H4].
      split; [done|]. split; [done|]. apply IH.
      destruct n; cbn in *; congruence.
    + intros (H1 & H2 & H3). f_equal.
      * by apply shift_note_round_trip.
      * by apply IH.
Qed.

(** C2, amended.  Shifting a sequence by [delta] and the result by
    [-delta] leaves the input untouched and returns a new sequence with the
    same notes in the same order, pitches, velocities and tempos, whose
    times are [(t + delta) + -delta] in binary64 arithmetic; it is equal to
    the input exactly when no time of the input is changed by adding
    [delta] and taking it away again. *)
Theorem shift_round_trip_restores
    (h : Heap) (s : ref) (v : NoteSequence) (delta : float) :
  h !! s = Some v ->
  exists r h' v',
    shift_round_trip s delta h = Ok r h' /\
    h' !! s = Some v /\ r <> s /\
    h' !! r = Some v' /\
    v' = retimed (retimed v delta) (- delta)%float /\
    pitch <$> notes v' = pitch <$> notes v /\
    velocity <$> notes v' = velocity <$> notes v /\
    tempos v' = tempos v /\
    timestamps v'
      = (fun t => (t + delta + - delta)%float) <$> timestamps v /\
    (v' = v <-> Forall (restores delta) (timestamps v)).
Proof.
  intros Hs.
  exists (S (length h)),
    (h ++ [retimed v delta; retimed (retimed v delta) (- delta)%float]),
    (retimed (retimed v delta) (- delta)%float).
  split; [by apply shift_round_trip_eq|].
  split; [by apply lookup_app_l_Some|].
  split; [apply lookup_lt_Some in Hs; lia|].
  split.
  { rewrite lookup_app_r by lia.
    by replace (S (length h) - length h)%nat with 1%nat by lia. }
  split; [done|].
  destruct v as [ns tt_ tp]. unfold retimed, timestamps. cbn.
  split; [by rewrite <- !list_fmap_compose|].
  split; [by rewrite <- !list_fmap_compose|].
  split; [done|].
  split.
  { rewrite fmap_app. cbn. f_equal. clear Hs.
    induction ns as [|n ns IH]; [done|]. cbn. by rewrite IH. }
  rewrite Forall_app, Forall_singleton, <- shift_notes_round_trip.
  unfold restores. split.
  - intros H. by inversion H as [[H1 H2]]; rewrite !H1, !H2.
  - by intros [-> ->].
Qed.

Lemma shift_round_trip_restores_witness :
  [dyadic_sequence] !! 0%nat = Some dyadic_sequence /\
  exists r h',
    shift_round_trip 0%nat 0.5 [dyadic_sequence] = Ok r h' /\
    h' !! r = Some dyadic_sequence.
Proof.
  split; [reflexivity|].
  destruct (shift_round_trip_restores
              [dyadic_sequence] 0%nat dyadic_sequence 0.5 eq_refl)
    as (r & h' & v' & Heq & _ & _ & Hr & _ & _ & _ & _ & _ & Hiff).
  exists r, h'. split; [exact Heq|].
  rewrite Hr. f_equal. apply Hiff.
  unfold restores, timestamps. cbn.
  repeat constructor.
Defined.

(** ** Claims on the constructors and on the parameters *)

(** C3. The constructor raises exactly on the two configuration errors,
    and then a [ValueError]: more than one generator with
    [generator_select_control_number] at [None], or a number of [None]
    among [clock_signal] and [tick_duration] other than one.  On any other
    arguments it returns the object, built from them. *)
Theorem init_raises_iff_misconfigured (a : Args) :
  match CallAndResponseMidiInteraction_init a with
  | inl e => e = ValueError /\ (ambiguous_generator a \/ clock_misconfigured a)
  | inr self =>
      ~ (ambiguous_generator a \/ clock_misconfigured a) /\ args self = a
  end.
Proof.
  unfold CallAndResponseMidiInteraction_init, MidiInteraction_init,
    ambiguous_generator, clock_misconfigured.
  destruct (bool_decide (generator_select_control_number a = None)) eqn:Hsel;
    [apply bool_decide_eq_true in Hsel | apply bool_decide_eq_false in Hsel];
    cbn [andb].
  - destruct (1 <? length (sequence_generators a))%nat eqn:Hlen;
      [apply Nat.ltb_lt in Hlen | apply Nat.ltb_ge in Hlen].
    + split; [done|]. left. done.
    + destruct (count_None (clock_signal a) (tick_duration_arg a) =? 1)%nat
        eqn:Hc; [apply Nat.eqb_eq in Hc | apply Nat.eqb_neq in Hc]; cbn.
      * split; [|done]. intros [[_ H]|H]; [lia|done].
      * split; [done|]. by right.
  - destruct (count_None (clock_signal a) (tick_duration_arg a) =? 1)%nat
      eqn:Hc; [apply Nat.eqb_eq in Hc | apply Nat.eqb_neq in Hc]; cbn.
    + split; [|done]. intros [[H _]|H]; done.
    + split; [done|]. by right.
Qed.

Lemma temperature_close_all :
  forallb temperature_close (Z.of_nat <$> seq 0 128) = true.
Proof. vm_compute. reflexivity. Qed.

(** C6. The temperature depends on the hub through the value of the bound
    control only; it is the default 1.0 when that value is [None], 0.1 at
    0 and 2.0 at 127, and for a value [v] from 0 to 127 it is
    [0.1 + (v / 127.) * (2.0 - 0.1)] computed in binary64, a finite number
    within [2^-52] of the exact [1/10 + v/127 * (2 - 1/10)]. *)
Theorem temperature_mapping (a : Args) (midi_hub : MidiHub) :
  (forall other : MidiHub,
     control_value other (temperature_control_number a)
     = control_value midi_hub (temperature_control_number a) ->
     _temperature a other = _temperature a midi_hub) /\
  match control_value midi_hub (temperature_control_number a) with
  | None => _temperature a midi_hub = 1%float
  | Some v =>
      _temperature a midi_hub
      = (0.1 + (F.of_Z v / 127) * (2.0 - 0.1))%float /\
      (v = 0 -> _temperature a midi_hub = 0.1%float) /\
      (v = 127 -> _temperature a midi_hub = 2%float) /\
      (0 <= v <= 127 ->
       exists q, Q_of_float (_temperature a midi_hub) = Some q /\
                 (Qabs (q - exact_temperature v) <= 1 # 2 ^ 52)%Q)
  end.
Proof.
  unfold _temperature, _temperature_with. split.
  { intros other ->. reflexivity. }
  destruct (control_value midi_hub (temperature_control_number a)) as [v|];
    [|reflexivity].
  split; [reflexivity|].
  split; [intros ->; vm_compute; reflexivity|].
  split; [intros ->; vm_compute; reflexivity|].
  intros Hv.
  assert (Hin : In v (Z.of_nat <$> seq 0 128)).
  { apply in_map_iff. exists (Z.to_nat v). split; [lia|].
    apply in_seq. lia. }
  pose proof temperature_close_all as Hall.
  rewrite forallb_forall in Hall. specialize (Hall v Hin).
  unfold temperature_close, _temperature, _temperature_with in Hall.
  cbn [control_value hub_with temperature_control_number controlled_args]
    in Hall. rewrite Z.eqb_refl in Hall.
  destruct (Q_of_float _) as [q|]; [|discriminate].
  exists q. split; [reflexivity|].
  destruct (Qle_bool _ _) eqn:Hle; [|discriminate].
  by apply Qle_bool_iff.
Qed.

(** C10. The maximum number of listen ticks is unbounded, [float('inf')],
    for every false control value, [None] and 0 alike, and the control
    value itself otherwise: no hub makes it 0, and with a false control
    value no number of ticks reaches it. *)
Theorem max_listen_ticks_unbounded (a : Args) (midi_hub : MidiHub) :
  _max_listen_ticks a midi_hub
  = match control_value midi_hub (max_listen_ticks_control_number a) with
    | None => inf
    | Some val => if val =? 0 then inf else ticks val
    end /\
  (truthy (control_value midi_hub (max_listen_ticks_control_number a)) = false ->
   _max_listen_ticks a midi_hub = inf /\
   forall n, reaches n (_max_listen_ticks a midi_hub) = false) /\
  _max_listen_ticks a midi_hub <> ticks 0.
Proof.
  unfold _max_listen_ticks, truthy.
  destruct (control_value midi_hub (max_listen_ticks_control_number a))
    as [val|]; [|done].
  destruct (val =? 0) eqn:Hval; [done|].
  apply Z.eqb_neq in Hval. split; [done|]. split; [done|]. congruence.
Qed.

Lemma max_listen_ticks_unbounded_witness :
  truthy (control_value (hub_with 3 0)
            (max_listen_ticks_control_number controlled_args)) = false /\
  _max_listen_ticks controlled_args (hub_with 3 0) = inf.
Proof.
  split; [reflexivity|].
  apply (max_listen_ticks_unbounded controlled_args (hub_with 3 0)).
  reflexivity.
Defined.

Lemma temperature_mapping_witness :
  0 <= 64 <= 127 /\
  exists q,
    Q_of_float (_temperature controlled_args (hub_with 6 64)) = Some q /\
    (Qabs (q - exact_temperature 64) <= 1 # 2 ^ 52)%Q.
Proof.
  split; [lia|].
  pose proof (temperature_mapping controlled_args (hub_with 6 64)) as [_ H].
  cbn [control_value hub_with temperature_control_number controlled_args] in H.
  apply H. lia.
Defined.

(** ** Reasoning on computations in the world *)

Lemma bind_Ok {St A B} (m : M St A) (k : A -> M St B) s y s' :
  bind m k s = Ok y s' <-> exists x s1, m s = Ok x s1 /\ k x s1 = Ok y s'.
Proof.
  unfold bind. destruct (m s) as [x s1|e].
  - split; [by exists x, s1|]. by intros (? & ? & [= <- <-] & ?).
  - split; [done|]. by intros (? & ? & ? & ?).
Qed.

Lemma set_heap_same w : set_heap (heap w) w = w.
Proof. by destruct w. Qed.

Lemma on_heap_alloc w v :
  on_heap (alloc v) w = Ok (length (heap w)) (set_heap (heap w ++ [v]) w).
Proof. reflexivity. Qed.

Lemma on_heap_deref w r v :
  heap w !! r = Some v -> on_heap (deref r) w = Ok v w.
Proof.
  intros H. unfold on_heap. rewrite (deref_eq _ _ v) by done.
  by rewrite set_heap_same.
Qed.

Lemma on_heap_deref_Ok w r v w' :
  on_heap (deref r) w = Ok v w' -> heap w !! r = Some v /\ w' = w.
Proof.
  unfold on_heap, deref. destruct (heap w !! r); [|done].
  intros [= <- <-]. by rewrite set_heap_same.
Qed.

Lemma on_heap_adjust w s v d :
  heap w !! s = Some v ->
  on_heap (adjust_sequence_times s d) w
  = Ok (length (heap w)) (set_heap (heap w ++ [retimed v d]) w).
Proof.
  intros H. unfold on_heap. by rewrite (adjust_sequence_times_eq _ _ v).
Qed.

Lemma on_heap_update w r v f :
  heap w !! r = Some v ->
  on_heap (update r f) w = Ok tt (set_heap (<[r := f v]> (heap w)) w).
Proof.
  intros H. unfold on_heap, update, bind. by rewrite (deref_eq _ _ v).
Qed.

(** A relation between the worlds before and after, for the runs of a
    computation that do not raise. *)
Definition respects {A} (R : World -> World -> Prop) (m : M World A) : Prop :=
  forall w x w', m w = Ok x w' -> R w w'.

Section respects.
Context (R : World -> World -> Prop).
Hypothesis R_refl : forall w, R w w.
Hypothesis R_trans : forall w1 w2 w3, R w1 w2 -> R w2 w3 -> R w1 w3.

Lemma respects_ret {A} (x : A) : respects R (ret x).
Proof. intros w y w' [= <- <-]. apply R_refl. Qed.

Lemma respects_raise {A} e : respects R (raise e : M World A).
Proof. intros w y w' [=]. Qed.

Lemma respects_lift_exn {A} (x : Exn + A) : respects R (lift_exn x).
Proof. destruct x; [apply respects_raise | apply respects_ret]. Qed.

Lemma respects_gets {A} (f : World -> A) : respects R (gets f).
Proof. intros w y w' [= <- <-]. apply R_refl. Qed.

Lemma respects_bind {A B} (m : M World A) (k : A -> M World B) :
  respects R m -> (forall x, respects R (k x)) -> respects R (bind m k).
Proof.
  intros Hm Hk w y w' (x & w1 & H1 & H2)%bind_Ok.
  eapply R_trans; [by eapply Hm | by eapply Hk].
Qed.

Lemma respects_when (c : bool) (m : M World unit) :
  respects R m -> respects R (when c m).
Proof. destruct c; [done|]. intros _. apply respects_ret. Qed.

Lemma respects_modify (f : World -> World) :
  (forall w, R w (f w)) -> respects R (modify f).
Proof. intros H w y w' [= <- <-]. apply H. Qed.

Lemma respects_on_heap {A} (m : M Heap A) :
  (forall w h, R w (set_heap h w)) -> respects R (on_heap m).
Proof.
  intros H w y w'. unfold on_heap. destruct (m (heap w)); [|done].
  intros [= <- <-]. apply H.
Qed.
End respects.

(** The computation adds events to the trace, all of them in [P]. *)
Definition emitting (P : Event -> Prop) (w w' : World) : Prop :=
  exists evs, trace w' = trace w ++ evs /\ Forall P evs.

(** The computation leaves the component [f] of the world as it was. *)
Definition keeping {X} (f : World -> X) (w w' : World) : Prop :=
  f w' = f w.

Lemma emitting_refl P w : emitting P w w.
Proof. exists []. by rewrite app_nil_r. Qed.

Lemma emitting_trans P w1 w2 w3 :
  emitting P w1 w2 -> emitting P w2 w3 -> emitting P w1 w3.
Proof.
  intros (e1 & H1 & F1) (e2 & H2 & F2). exists (e1 ++ e2).
  split; [by rewrite H2, H1, app_assoc | by apply Forall_app].
Qed.

Lemma emitting_one (P : Event -> Prop) w e :
  P e -> emitting P w (set_trace (trace w ++ [e]) w).
Proof. intros H. exists [e]. split; [done|]. by constructor. Qed.

Lemma emitting_same_trace P w w' : trace w' = trace w -> emitting P w w'.
Proof. intros H. exists []. by rewrite app_nil_r. Qed.

Lemma emitting_weaken (P Q : Event -> Prop) w w' :
  (forall e, P e -> Q e) -> emitting P w w' -> emitting Q w w'.
Proof.
  intros H (evs & Ht & HF). exists evs. split; [done|].
  eapply Forall_impl; eauto.
Qed.

Lemma keeping_refl {X} (f : World -> X) w : keeping f w w.
Proof. reflexivity. Qed.

Lemma keeping_trans {X} (f : World -> X) w1 w2 w3 :
  keeping f w1 w2 -> keeping f w2 w3 -> keeping f w1 w3.
Proof. unfold keeping. congruence. Qed.

(** Structural proofs of [respects R m], for [R] a preorder: [refl] and
    [trans] prove that it is one, [leaf] closes the goals of the form
    [R w (f w)] that the updates of the world leave, and [call] the goals
    on the functions of the module. *)
Ltac respects_with tac_refl tac_trans tac_leaf tac_call :=
  repeat first
    [ apply respects_bind; [solve [tac_trans]| |intros ?]
    | apply respects_ret; solve [tac_refl]
    | apply respects_gets; solve [tac_refl]
    | apply respects_raise
    | apply respects_lift_exn; solve [tac_refl]
    | apply respects_when; [solve [tac_refl]|]
    | apply respects_modify; intros ?; solve [tac_leaf]
    | apply respects_on_heap; intros ? ?; solve [tac_leaf]
    | progress unfold emit, assign
    | tac_call
    | match goal with
      | |- respects _ (if ?b then _ else _) => destruct b
      | |- respects _ (match ?x with _ => _ end) => destruct x
      | |- respects _ (let _ := _ in _) => cbv zeta
      end ].

(** Normal forms of worlds: the updates are evaluated innermost first. *)
Ltac world_simpl :=
  cbv [set_heap set_end_call set_panic set_mutate set_captor_start_time
       set_last_tick_time set_listen_ticks set_response_sequence
       set_response_start_time set_response_duration set_trace
       heap stop_signal end_call panic mutate captor_start_time
       last_tick_time listen_ticks response_sequence response_start_time
       response_duration trace].

(** The same without unfolding what is applied to no record. *)
Ltac world_norm :=
  cbn [set_heap set_end_call set_panic set_mutate set_captor_start_time
       set_last_tick_time set_listen_ticks set_response_sequence
       set_response_start_time set_response_duration set_trace
       heap stop_signal end_call panic mutate captor_start_time
       last_tick_time listen_ticks response_sequence response_start_time
       response_duration trace].

Ltac unfold_loop :=
  progress unfold tick_logic, handle_call, end_of_call, respond, keep_idling,
    push_late_response, drop_empty_mutate, loop_or_mutate, restart_metronome,
    set_captured_qpm, _generate, _update_state, handle_panic.

Ltac keeps :=
  respects_with ltac:(apply keeping_refl) ltac:(apply keeping_trans)
                ltac:(reflexivity) ltac:(unfold_loop).

Ltac emits_any :=
  respects_with ltac:(apply emitting_refl) ltac:(apply emitting_trans)
    ltac:(first [ by apply emitting_same_trace
                | apply emitting_one; try done ])
    ltac:(unfold_loop).

Section frame.
Context (trim_note_sequence : NoteSequence -> float -> float -> NoteSequence).
Context (a : Args) (midi_hub : MidiHub) (clock : Clock).

Lemma tick_logic_keeps_panic captured_sequence :
  respects (keeping panic)
    (tick_logic trim_note_sequence a midi_hub clock captured_sequence).
Proof. keeps. Qed.

Lemma tick_logic_keeps_stop_signal captured_sequence :
  respects (keeping stop_signal)
    (tick_logic trim_note_sequence a midi_hub clock captured_sequence).
Proof. keeps. Qed.

Lemma tick_logic_emits captured_sequence :
  respects (emitting (fun _ => True))
    (tick_logic trim_note_sequence a midi_hub clock captured_sequence).
Proof. emits_any. Qed.
End frame.

(** ** The stages of a tick *)

Section stages.
Context (trim_note_sequence : NoteSequence -> float -> float -> NoteSequence).
Context (a : Args) (midi_hub : MidiHub) (clock : Clock).

Lemma run_tick_break captured w :
  stop_signal w = true ->
  run_tick trim_note_sequence a midi_hub clock captured w
  = Ok false (set_heap (heap w ++ [captured]) w).
Proof.
  intros Hstop. unfold run_tick, bind, gets. rewrite on_heap_alloc.
  cbn. by rewrite Hstop.
Qed.

Lemma lookup_captured (h : Heap) (v : NoteSequence) (rest : Heap) :
  (h ++ v :: rest) !! length h = Some v.
Proof. by apply list_lookup_middle. Qed.

Lemma lookup_after_captured (h : Heap) (v v' : NoteSequence) (rest : Heap) :
  (h ++ v :: v' :: rest) !! S (length h) = Some v'.
Proof.
  rewrite lookup_app_r by lia.
  by replace (S (length h) - length h)%nat with 1%nat by lia.
Qed.

Lemma insert_captured (h : Heap) (v v' : NoteSequence) (rest : Heap) :
  <[length h := v']> (h ++ v :: rest) = h ++ v' :: rest.
Proof. by rewrite insert_app_r_alt, Nat.sub_diag. Qed.

Lemma run_tick_stages captured w :
  stop_signal w = false ->
  tempos captured <> [] ->
  run_tick trim_note_sequence a midi_hub clock captured w
  = bind (handle_call trim_note_sequence a midi_hub clock
            (captured_ref w) (silent_tick_of captured w)
            (tick_time_of captured) (tick_duration_of captured w))
         (fun _ => after_call trim_note_sequence a midi_hub
                     (tick_time_of captured))
         (world_before_call a midi_hub captured w).
Proof.
  intros Hstop Htempos.
  destruct (tempos captured) as [|t ts] eqn:Ht; [done|].
  unfold world_before_call, world_after_panic, captured_with_qpm,
    captured_ref, listened_of, silent_tick_of, tick_duration_of, tick_time_of,
    after_call.
  destruct w as [h st ec pn mu cst ltt lt rs rst rd tr].
  cbn in Hstop. subst st.
  unfold run_tick, tick_logic, handle_panic, restart_metronome,
    set_captured_qpm.
  unfold bind, gets, when, assign, emit, modify, ret, on_heap, alloc, deref,
    update.
  destruct pn, (bool_decide (clock_signal a = None)
                && bool_decide (metronome_channel a <> None));
    repeat first
      [ rewrite lookup_captured | rewrite lookup_last
      | rewrite insert_captured | rewrite insert_last
      | rewrite <- app_assoc | rewrite Ht
      | progress cbn -[handle_call drop_empty_mutate loop_or_mutate
                       last_end_time_of]
      | progress unfold bind, deref, modify ];
    destruct (last_end_time_of captured <=? ltt)%float;
    world_simpl;
    rewrite ?length_app, ?Nat.add_1_r, <- ?app_assoc;
    cbn -[handle_call drop_empty_mutate loop_or_mutate last_end_time_of];
    (destruct (handle_call _ _ _ _ _ _ _ _ _) as [? w1|]; [|done]);
    (destruct (drop_empty_mutate w1) as [? w2|]; [|done]);
    (destruct (loop_or_mutate _ _ _ _ w2) as [? w3|]; done).
Qed.
End stages.

Section branch.
Context (trim_note_sequence : NoteSequence -> float -> float -> NoteSequence).
Context (a : Args) (midi_hub : MidiHub) (clock : Clock).

Lemma run_tick_no_tempo captured w :
  stop_signal w = false ->
  tempos captured = [] ->
  run_tick trim_note_sequence a midi_hub clock captured w = Raise IndexError.
Proof.
  intros Hstop Ht.
  destruct w as [h st ec pn mu cst ltt lt rs rst rd tr].
  cbn in Hstop. subst st.
  unfold run_tick, tick_logic, handle_panic, restart_metronome,
    set_captured_qpm.
  unfold bind, gets, when, assign, emit, modify, ret, on_heap, alloc, deref,
    update.
  destruct pn, (bool_decide (clock_signal a = None)
                && bool_decide (metronome_channel a <> None));
    repeat first
      [ rewrite lookup_captured | rewrite lookup_last
      | rewrite <- app_assoc | rewrite Ht
      | progress cbn -[handle_call drop_empty_mutate loop_or_mutate
                       last_end_time_of] ];
    reflexivity.
Qed.

(** The world at the three-way branch. *)
Lemma world_before_call_captured captured w :
  heap (world_before_call a midi_hub captured w) !! captured_ref w
  = Some (captured_with_qpm a midi_hub captured).
Proof.
  unfold world_before_call, world_after_panic, captured_ref.
  destruct w as [h st ec pn mu cst ltt lt rs rst rd tr].
  destruct pn, (bool_decide (clock_signal a = None)
                && bool_decide (metronome_channel a <> None));
    world_simpl; rewrite ?insert_captured; apply lookup_captured.
Qed.

Lemma world_before_call_listen_ticks captured w :
  listen_ticks (world_before_call a midi_hub captured w)
  = listened_of captured w.
Proof. reflexivity. Qed.

Lemma world_before_call_keeps {X} (f : World -> X) captured w :
  (forall h w0, f (set_heap h w0) = f w0) ->
  (forall t w0, f (set_trace t w0) = f w0) ->
  (forall n w0, f (set_listen_ticks n w0) = f w0) ->
  (forall r w0, f (set_response_sequence r w0) = f w0) ->
  (forall b w0, f (set_panic b w0) = f w0) ->
  f (world_before_call a midi_hub captured w) = f w.
Proof.
  intros H1 H2 H3 H4 H5. unfold world_before_call, world_after_panic.
  destruct (panic w), (bool_decide (clock_signal a = None)
                       && bool_decide (metronome_channel a <> None));
    by rewrite ?H3, ?H1, ?H2, ?H5, ?H2, ?H4, ?H1.
Qed.

Lemma world_before_call_emits (P : Event -> Prop) captured w :
  (forall r, P (update_sequence r None)) ->
  (forall q t c, P (start_metronome q t c)) ->
  emitting P w (world_before_call a midi_hub captured w).
Proof.
  intros H1 H2. unfold world_before_call, world_after_panic, emitting.
  destruct w as [h st ec pn mu cst ltt lt rs rst rd tr].
  destruct pn, (bool_decide (clock_signal a = None)
                && bool_decide (metronome_channel a <> None));
    world_simpl.
  - eexists [_; _]. rewrite <- app_assoc. split; [done|].
    repeat constructor; auto.
  - eexists [_]. split; [done|]. repeat constructor; auto.
  - eexists [_]. split; [done|]. repeat constructor; auto.
  - exists []. by rewrite app_nil_r.
Qed.

Lemma handle_call_cases captured_sequence silent_tick tick_time tick_duration
    w cv :
  heap w !! captured_sequence = Some cv ->
  handle_call trim_note_sequence a midi_hub clock
    captured_sequence silent_tick tick_time tick_duration w
  = match notes cv with
    | [] => keep_idling a tick_time w
    | _ :: _ =>
        if call_ends a midi_hub (end_call w) silent_tick (listen_ticks w)
        then end_of_call trim_note_sequence a midi_hub clock
               captured_sequence silent_tick tick_time tick_duration w
        else _update_state a LISTENING w
    end.
Proof.
  intros Hcv. unfold handle_call, bind at 1.
  rewrite (on_heap_deref _ _ cv) by done.
  destruct (notes cv); [reflexivity|].
  unfold bind, gets.
  by destruct (call_ends a midi_hub (end_call w) silent_tick (listen_ticks w)).
Qed.

Lemma end_of_call_resets captured_sequence silent_tick tick_time tick_duration
    w x w' :
  end_of_call trim_note_sequence a midi_hub clock
    captured_sequence silent_tick tick_time tick_duration w = Ok x w' ->
  listen_ticks w' = 0 /\ end_call w' = false.
Proof.
  unfold end_of_call.
  intros (l & w1 & _ & (y & w2 & _ & (z & w3 & H3 & H4)%bind_Ok)%bind_Ok)%bind_Ok.
  unfold assign, modify in H3, H4.
  injection H3 as _ <-. injection H4 as _ <-. done.
Qed.

Lemma end_of_call_never_listening captured_sequence silent_tick tick_time
    tick_duration :
  respects (emitting (fun e => e <> log_state LISTENING))
    (end_of_call trim_note_sequence a midi_hub clock
       captured_sequence silent_tick tick_time tick_duration).
Proof. emits_any. Qed.

Lemma after_call_emits (P : Event -> Prop) tick_time :
  P log_ignoring_mutate ->
  (forall id, P (log_generating id)) ->
  (forall id input options, P (call_generate id input options)) ->
  (forall r t, P (update_sequence r t)) ->
  respects (emitting P) (after_call trim_note_sequence a midi_hub tick_time).
Proof.
  intros H1 H2 H3 H4. unfold after_call.
  respects_with ltac:(apply emitting_refl) ltac:(apply emitting_trans)
    ltac:(first [ by apply emitting_same_trace
                | apply emitting_one; auto ])
    ltac:(unfold_loop).
Qed.

Lemma after_call_keeps_listen_ticks tick_time :
  respects (keeping listen_ticks)
    (after_call trim_note_sequence a midi_hub tick_time).
Proof. unfold after_call. keeps. Qed.

Lemma after_call_keeps_end_call tick_time :
  respects (keeping end_call)
    (after_call trim_note_sequence a midi_hub tick_time).
Proof. unfold after_call. keeps. Qed.

Lemma after_call_keeps_captor_start_time tick_time :
  respects (keeping captor_start_time)
    (after_call trim_note_sequence a midi_hub tick_time).
Proof. unfold after_call. keeps. Qed.
End branch.

(** C5. On a tick with captured notes on which [listen_ticks], counted
    after line 402, is at least the maximum [m] read from the hub, silent
    tick or not, the loop takes the branch that ends the call: the rest of
    the iteration is [end_of_call] followed by lines 479-503, so that when
    it completes [listen_ticks] is 0, the end-call event is clear and the
    state [LISTENING] has not been logged.  The hypothesis allows
    [listen_ticks = m]. *)
Theorem call_ends_at_max_listen_ticks
    (trim_note_sequence : NoteSequence -> float -> float -> NoteSequence)
    (a : Args) (midi_hub : MidiHub) (clock : Clock)
    (captured : NoteSequence) (w : World) (m : Z) :
  stop_signal w = false ->
  notes captured <> [] ->
  _max_listen_ticks a midi_hub = ticks m ->
  m <= listened_of captured w ->
  (tempos captured <> [] ->
   run_tick trim_note_sequence a midi_hub clock captured w
   = bind (end_of_call trim_note_sequence a midi_hub clock
             (captured_ref w) (silent_tick_of captured w)
             (tick_time_of captured) (tick_duration_of captured w))
          (fun _ => after_call trim_note_sequence a midi_hub
                      (tick_time_of captured))
          (world_before_call a midi_hub captured w)) /\
  forall continue w',
    run_tick trim_note_sequence a midi_hub clock captured w = Ok continue w' ->
    listen_ticks w' = 0 /\ end_call w' = false /\
    exists evs, trace w' = trace w ++ evs /\
                Forall (fun e => e <> log_state LISTENING) evs.
Proof.
  intros Hstop Hnotes Hmax Hm.
  assert (Hbranch :
    handle_call trim_note_sequence a midi_hub clock
      (captured_ref w) (silent_tick_of captured w)
      (tick_time_of captured) (tick_duration_of captured w)
      (world_before_call a midi_hub captured w)
    = end_of_call trim_note_sequence a midi_hub clock
        (captured_ref w) (silent_tick_of captured w)
        (tick_time_of captured) (tick_duration_of captured w)
        (world_before_call a midi_hub captured w)).
  { rewrite (handle_call_cases _ _ _ _ _ _ _ _ _
               (captured_with_qpm a midi_hub captured))
      by apply world_before_call_captured.
    cbn [captured_with_qpm set_tempos notes].
    destruct (notes captured) as [|n ns]; [done|].
    unfold call_ends. rewrite world_before_call_listen_ticks, Hmax.
    cbn [reaches]. apply Z.leb_le in Hm. rewrite Hm.
    by rewrite !orb_true_r. }
  split.
  { intros Ht. rewrite run_tick_stages by done. unfold bind at 1.
    rewrite Hbranch. reflexivity. }
  intros continue w' Hrun.
  destruct (tempos captured) as [|t ts] eqn:Ht.
  { by rewrite run_tick_no_tempo in Hrun. }
  rewrite run_tick_stages in Hrun by (by rewrite ?Ht).
  apply bind_Ok in Hrun as (x & w1 & Hcall & Hafter).
  rewrite Hbranch in Hcall.
  pose proof (end_of_call_resets _ _ _ _ _ _ _ _ _ _ _ Hcall) as [Hl He].
  split; [by rewrite (after_call_keeps_listen_ticks _ _ _ _ _ _ _ Hafter)|].
  split; [by rewrite (after_call_keeps_end_call _ _ _ _ _ _ _ Hafter)|].
  eapply emitting_trans; [|eapply emitting_trans].
  - by apply (world_before_call_emits a midi_hub _ captured w).
  - by eapply end_of_call_never_listening.
  - by eapply after_call_emits.
Qed.

Lemma call_ends_at_max_listen_ticks_witness :
  _max_listen_ticks controlled_args one_tick_limit = ticks 1 /\
  1 <= listened_of sample_call (sample_world false false false) /\
  exists w',
    run_tick sample_trim controlled_args one_tick_limit (mkClock 100.1 100.1)
      sample_call (sample_world false false false) = Ok true w' /\
    listen_ticks w' = 0.
Proof.
  split; [reflexivity|]. split; [vm_compute; discriminate|].
  eexists. split; [vm_compute; reflexivity|].
  eapply (call_ends_at_max_listen_ticks sample_trim controlled_args
            one_tick_limit (mkClock 100.1 100.1) sample_call
            (sample_world false false false) 1 eq_refl).
  - discriminate.
  - reflexivity.
  - vm_compute. discriminate.
  - vm_compute. reflexivity.
Defined.

(** ** Lines 479-503 without a mutation *)

Section quiet.
Context (trim_note_sequence : NoteSequence -> float -> float -> NoteSequence).
Context (a : Args) (midi_hub : MidiHub).

Lemma after_call_eq tick_time w response :
  heap w !! response_sequence w = Some response ->
  mutate w = false \/ notes response = [] ->
  after_call trim_note_sequence a midi_hub tick_time w
  = Ok true (world_after_call a midi_hub tick_time response w).
Proof.
  intros Hr Hquiet.
  unfold after_call, drop_empty_mutate, loop_or_mutate, world_after_call,
    looping.
  destruct w as [h st ec pn mu cst ltt lt rs rst rd tr]. cbn in Hr, Hquiet.
  unfold bind, gets, when, assign, emit, modify, ret.
  cbn [response_sequence mutate].
  rewrite (on_heap_deref _ _ response) by exact Hr.
  assert (Hmu : mu && bool_decide (notes response = []) = mu).
  { destruct Hquiet as [->| ->]; [reflexivity|]. apply andb_true_r. }
  rewrite Hmu.
  destruct mu; world_simpl;
    rewrite (on_heap_deref _ _ response) by exact Hr; world_simpl;
    rewrite orb_false_r;
    (destruct (total_time response <=? tick_time)%float,
       (_should_loop a midi_hub); cbn [andb]; try reflexivity);
    rewrite (on_heap_adjust _ _ response) by exact Hr; reflexivity.
Qed.
End quiet.

(** ** Claims on the end of a call, the mutate signal and the panic signal *)

Section signals.
Context (trim_note_sequence : NoteSequence -> float -> float -> NoteSequence).
Context (a : Args) (midi_hub : MidiHub) (clock : Clock).

Lemma handle_call_ends captured w :
  notes captured <> [] ->
  call_ends a midi_hub (end_call w) (silent_tick_of captured w)
    (listened_of captured w) = true ->
  handle_call trim_note_sequence a midi_hub clock
    (captured_ref w) (silent_tick_of captured w)
    (tick_time_of captured) (tick_duration_of captured w)
    (world_before_call a midi_hub captured w)
  = end_of_call trim_note_sequence a midi_hub clock
      (captured_ref w) (silent_tick_of captured w)
      (tick_time_of captured) (tick_duration_of captured w)
      (world_before_call a midi_hub captured w).
Proof.
  intros Hnotes Hends.
  rewrite (handle_call_cases _ _ _ _ _ _ _ _ _
             (captured_with_qpm a midi_hub captured))
    by apply world_before_call_captured.
  cbn [captured_with_qpm set_tempos notes].
  destruct (notes captured) as [|n ns]; [done|].
  rewrite world_before_call_listen_ticks.
  rewrite (world_before_call_keeps a midi_hub end_call) by reflexivity.
  by rewrite Hends.
Qed.

Lemma end_of_call_short captured_sequence silent_tick tick_time tick_duration
    w :
  listen_ticks w < _min_listen_ticks a midi_hub ->
  end_of_call trim_note_sequence a midi_hub clock
    captured_sequence silent_tick tick_time tick_duration w
  = Ok tt (world_after_short_call a midi_hub tick_time w).
Proof.
  intros Hshort%Z.ltb_lt. unfold end_of_call, bind, gets.
  rewrite Hshort. reflexivity.
Qed.

Lemma after_call_dangling tick_time w :
  heap w !! response_sequence w = None ->
  after_call trim_note_sequence a midi_hub tick_time w = Raise ReferenceError.
Proof.
  intros Hr. unfold after_call, drop_empty_mutate, bind, gets, on_heap, deref.
  by rewrite Hr.
Qed.

(** Lines 479-503 call a generator only for a mutate signal. *)
Lemma after_call_generates_for_mutate tick_time w x w' :
  after_call trim_note_sequence a midi_hub tick_time w = Ok x w' ->
  emitting (fun e => is_call_generate e -> mutate w = true) w w'.
Proof.
  intros Hrun. destruct (mutate w) eqn:Hmu.
  - eapply emitting_weaken; [|by eapply (after_call_emits _ _ _ (fun _ => True))].
    done.
  - destruct (heap w !! response_sequence w) as [response|] eqn:Hr.
    2:{ by rewrite after_call_dangling in Hrun. }
    rewrite (after_call_eq _ _ _ _ _ response) in Hrun by auto.
    injection Hrun as _ <-.
    unfold world_after_call. rewrite Hmu. cbn [andb].
    destruct (looping a midi_hub tick_time response).
    + eexists [_]. split; [reflexivity|]. constructor; [|constructor].
      by intros (? & ? & ? & [=]).
    + exists []. split; [by rewrite app_nil_r|constructor].
Qed.

Lemma run_tick_after_panic captured w :
  stop_signal w = false ->
  run_tick trim_note_sequence a midi_hub clock captured w
  = bind (tick_logic trim_note_sequence a midi_hub clock (captured_ref w))
         (fun _ => ret true)
         (world_after_panic captured w).
Proof.
  intros Hstop. unfold world_after_panic, captured_ref.
  destruct w as [h st ec pn mu cst ltt lt rs rst rd tr].
  cbn in Hstop. subst st.
  unfold run_tick, handle_panic.
  unfold bind at 1. rewrite on_heap_alloc. world_simpl.
  unfold bind at 1, gets at 1. world_simpl.
  unfold bind at 1. unfold bind at 1, gets at 1. world_simpl.
  destruct pn; cbn [when]; [|reflexivity].
  unfold bind at 1. unfold bind at 1. rewrite on_heap_alloc. world_simpl.
  unfold bind, assign, emit, modify. world_simpl.
  rewrite length_app, Nat.add_1_r, <- app_assoc. reflexivity.
Qed.
End signals.

(** C8, as stated: on a tick with the mutate signal set and a response
    without notes, the response and its start time would be left as they
    were.  With looping on they are not: from the empty response of the
    start, at reference 0 and starting at 0, the tick of 100 s issues a new
    sequence, total time 100, at reference 2, and sets the start time to
    100. *)
Lemma empty_mutate_response_moved :
  let w := sample_world false false true in
  mutate w = true /\
  (notes <$> heap w !! response_sequence w) = Some [] /\
  exists w',
    run_tick sample_trim controlled_args loop_hub (mkClock 100.1 100.1)
      idle_capture w = Ok true w' /\
    response_sequence w' <> response_sequence w /\
    (response_start_time w' =? response_start_time w)%float = false /\
    (total_time <$> heap w' !! response_sequence w') = Some 100%float /\
    (total_time <$> heap w !! response_sequence w) = Some 0%float /\
    last (trace w') = Some (update_sequence 2%nat (Some 100%float)).
Proof.
  cbv zeta. split; [reflexivity|]. split; [reflexivity|].
  eexists. split; [vm_compute; reflexivity|].
  cbn. split; [discriminate|]. split; [vm_compute; reflexivity|].
  repeat split.
Qed.

(** C8, amended.  Lines 479-503, entered with the mutate signal set and a
    response without notes, complete; they clear the signal, log that the
    request is ignored and call no generator.  The response and its start
    time are left as they were unless the response is looped on that tick
    (it has been played and looping is on): then a copy of it moved to the
    tick time is issued and becomes the response, starting at the tick
    time, the old object being left as it was. *)
Theorem empty_mutate_ignored
    (trim_note_sequence : NoteSequence -> float -> float -> NoteSequence)
    (a : Args) (midi_hub : MidiHub) (tick_time : float)
    (w : World) (response : NoteSequence) :
  mutate w = true ->
  heap w !! response_sequence w = Some response ->
  notes response = [] ->
  exists w',
    after_call trim_note_sequence a midi_hub tick_time w = Ok true w' /\
    mutate w' = false /\
    heap w' !! response_sequence w = Some response /\
    (exists evs,
       trace w' = trace w ++ log_ignoring_mutate :: evs /\
       Forall (fun e => ~ is_call_generate e) evs) /\
    if looping a midi_hub tick_time response
    then response_sequence w' = length (heap w) /\
         heap w' !! response_sequence w'
         = Some (retimed response (tick_time - response_start_time w)%float) /\
         response_start_time w' = tick_time /\
         last (trace w')
         = Some (update_sequence (response_sequence w') (Some tick_time))
    else response_sequence w' = response_sequence w /\
         response_start_time w' = response_start_time w /\
         heap w' = heap w /\
         trace w' = trace w ++ [log_ignoring_mutate].
Proof.
  intros Hmu Hr Hn.
  exists (world_after_call a midi_hub tick_time response w).
  split; [apply after_call_eq; auto|].
  unfold world_after_call. rewrite Hmu, Hn. cbn [andb bool_decide].
  rewrite bool_decide_eq_true_2 by reflexivity.
  destruct (looping a midi_hub tick_time response);
    destruct w as [h st ec pn mu cst ltt lt rs rst rd tr];
    cbn in Hr |- *.
  - split; [reflexivity|].
    split; [by apply lookup_app_l_Some|].
    split.
    { eexists [_]. rewrite <- app_assoc. split; [reflexivity|].
      constructor; [|constructor]. by intros (? & ? & ? & [=]). }
    split; [reflexivity|]. split; [apply lookup_last|].
    split; [reflexivity|]. by rewrite last_snoc.
  - split; [reflexivity|]. split; [exact Hr|].
    split; [|done].
    exists []. split; [reflexivity|constructor].
Qed.

Lemma empty_mutate_ignored_witness :
  let w := sample_world false false true in
  mutate w = true /\
  heap w !! response_sequence w = Some NoteSequence_new /\
  exists w',
    after_call sample_trim sample_args silent_hub 100 w = Ok true w' /\
    mutate w' = false.
Proof.
  cbv zeta. split; [reflexivity|]. split; [reflexivity|].
  destruct (empty_mutate_ignored sample_trim sample_args silent_hub 100
              (sample_world false false true) NoteSequence_new
              eq_refl eq_refl eq_refl) as (w' & Hrun & Hmu & _).
  exists w'. split; [exact Hrun | exact Hmu].
Defined.

(** C4, as stated: on a tick on which a call ends too short no generator
    would be called.  One is when the mutate signal is set and the previous
    response has been played: the call of one tick, two being asked for, is
    logged as too short and the capture start moved to the tick time, and
    then the generator is called on the previous response. *)
Lemma too_short_call_mutate_generates :
  let w := world_with_response true false true in
  call_ends controlled_args two_ticks_minimum (end_call w)
    (silent_tick_of sample_call w) (listened_of sample_call w) = true /\
  listened_of sample_call w < _min_listen_ticks controlled_args two_ticks_minimum /\
  exists w' options,
    run_tick sample_trim controlled_args two_ticks_minimum
      (mkClock 100.1 100.1) sample_call w = Ok true w' /\
    In (log_input_too_short 1 2) (trace w') /\
    In (call_generate 1 2%nat options) (trace w').
Proof.
  cbv zeta. split; [vm_compute; reflexivity|]. split; [vm_compute; reflexivity|].
  eexists _, _. split; [vm_compute; reflexivity|].
  split; [left; reflexivity|]. right. right. left. reflexivity.
Qed.

(** C4, amended.  On a tick on which a call ends with [listen_ticks] below
    the minimum, the three-way branch only logs that the input is too short
    and moves the capture start to the tick time, and the iteration goes on
    with lines 479-503.  When the iteration completes, the capture start is
    the tick time, the end-call event is clear, [listen_ticks] is 0, and a
    generator has been called only if the mutate signal was set at the
    start of the tick; with that signal clear and a response in the store,
    the iteration does complete. *)
Theorem too_short_call_discarded
    (trim_note_sequence : NoteSequence -> float -> float -> NoteSequence)
    (a : Args) (midi_hub : MidiHub) (clock : Clock)
    (captured : NoteSequence) (w : World) :
  stop_signal w = false ->
  notes captured <> [] ->
  call_ends a midi_hub (end_call w) (silent_tick_of captured w)
    (listened_of captured w) = true ->
  listened_of captured w < _min_listen_ticks a midi_hub ->
  (tempos captured <> [] ->
   run_tick trim_note_sequence a midi_hub clock captured w
   = after_call trim_note_sequence a midi_hub (tick_time_of captured)
       (world_after_short_call a midi_hub (tick_time_of captured)
          (world_before_call a midi_hub captured w))) /\
  (forall continue w',
     run_tick trim_note_sequence a midi_hub clock captured w = Ok continue w' ->
     captor_start_time w' = tick_time_of captured /\
     end_call w' = false /\
     listen_ticks w' = 0 /\
     exists evs,
       trace w' = trace w ++ evs /\
       In (log_input_too_short (listened_of captured w)
             (_min_listen_ticks a midi_hub)) evs /\
       Forall (fun e => is_call_generate e -> mutate w = true) evs) /\
  (mutate w = false ->
   tempos captured <> [] ->
   is_Some (heap w !! response_sequence w) ->
   exists w',
     run_tick trim_note_sequence a midi_hub clock captured w = Ok true w').
Proof.
  intros Hstop Hnotes Hends Hshort.
  assert (Hrun : tempos captured <> [] ->
    run_tick trim_note_sequence a midi_hub clock captured w
    = after_call trim_note_sequence a midi_hub (tick_time_of captured)
        (world_after_short_call a midi_hub (tick_time_of captured)
           (world_before_call a midi_hub captured w))).
  { intros Ht. rewrite run_tick_stages by done. unfold bind at 1.
    rewrite handle_call_ends by done.
    rewrite end_of_call_short; [reflexivity|].
    by rewrite world_before_call_listen_ticks. }
  split; [exact Hrun|]. split.
  - intros continue w' Hok.
    destruct (tempos captured) as [|t ts] eqn:Ht.
    { by rewrite run_tick_no_tempo in Hok. }
    rewrite Hrun in Hok by done.
    set (wb := world_before_call a midi_hub captured w) in *.
    set (ws := world_after_short_call a midi_hub (tick_time_of captured) wb)
      in *.
    split.
    { by rewrite (after_call_keeps_captor_start_time _ _ _ _ _ _ _ Hok). }
    split; [by rewrite (after_call_keeps_end_call _ _ _ _ _ _ _ Hok)|].
    split; [by rewrite (after_call_keeps_listen_ticks _ _ _ _ _ _ _ Hok)|].
    destruct (world_before_call_emits a midi_hub
                (fun e => is_call_generate e -> mutate w = true) captured w)
      as (e1 & He1 & HF1).
    { by intros r (? & ? & ? & [=]). }
    { by intros q t0 c (? & ? & ? & [=]). }
    destruct (after_call_generates_for_mutate _ _ _ _ _ _ _ Hok)
      as (e2 & He2 & HF2).
    exists (e1 ++ log_input_too_short (listened_of captured w)
                    (_min_listen_ticks a midi_hub) :: e2).
    split.
    { rewrite He2. subst ws wb. unfold world_after_short_call.
      cbn [trace set_listen_ticks set_end_call set_captor_start_time
           set_trace].
      rewrite He1, world_before_call_listen_ticks.
      by rewrite <- !app_assoc. }
    split; [apply in_or_app; right; by left|].
    apply Forall_app. split; [exact HF1|].
    constructor; [by intros (? & ? & ? & [=])|].
    eapply Forall_impl; [exact HF2|]. intros e He Hg. apply He in Hg.
    subst ws wb. unfold world_after_short_call in Hg.
    cbn [mutate set_listen_ticks set_end_call set_captor_start_time
         set_trace] in Hg.
    by rewrite (world_before_call_keeps a midi_hub mutate) in Hg.
  - intros Hmu Ht [response Hr]. rewrite Hrun by done.
    set (wb := world_before_call a midi_hub captured w).
    assert (Hresp : exists r,
      heap (world_after_short_call a midi_hub (tick_time_of captured) wb)
        !! response_sequence
             (world_after_short_call a midi_hub (tick_time_of captured) wb)
      = Some r).
    { subst wb. unfold world_after_short_call, world_before_call,
        world_after_panic, captured_ref.
      destruct w as [h st ec pn mu cst ltt lt rs rst rd tr]. cbn in Hr.
      destruct pn, (bool_decide (clock_signal a = None)
                    && bool_decide (metronome_channel a <> None));
        world_simpl; rewrite insert_captured.
      - exists NoteSequence_new. apply lookup_after_captured.
      - exists NoteSequence_new. apply lookup_after_captured.
      - exists response. by apply lookup_app_l_Some.
      - exists response. by apply lookup_app_l_Some. }
    destruct Hresp as [r Hresp].
    eexists. apply (after_call_eq _ _ _ _ _ r); [exact Hresp|].
    left. subst wb. unfold world_after_short_call.
    cbn [mutate set_listen_ticks set_end_call set_captor_start_time
         set_trace].
    by rewrite (world_before_call_keeps a midi_hub mutate).
Qed.

Lemma too_short_call_discarded_witness :
  let w := world_with_response true false false in
  call_ends controlled_args two_ticks_minimum (end_call w)
    (silent_tick_of sample_call w) (listened_of sample_call w) = true /\
  listened_of sample_call w < _min_listen_ticks controlled_args two_ticks_minimum /\
  exists w',
    run_tick sample_trim controlled_args two_ticks_minimum
      (mkClock 100.1 100.1) sample_call w = Ok true w' /\
    listen_ticks w' = 0.
Proof.
  cbv zeta.
  pose proof (too_short_call_discarded sample_trim controlled_args
                two_ticks_minimum (mkClock 100.1 100.1) sample_call
                (world_with_response true false false)) as H.
  assert (H1 : call_ends controlled_args two_ticks_minimum
                 (end_call (world_with_response true false false))
                 (silent_tick_of sample_call
                    (world_with_response true false false))
                 (listened_of sample_call
                    (world_with_response true false false)) = true)
    by (vm_compute; reflexivity).
  assert (H2 : listened_of sample_call (world_with_response true false false)
               < _min_listen_ticks controlled_args two_ticks_minimum)
    by (vm_compute; reflexivity).
  split; [exact H1|]. split; [exact H2|].
  destruct (H eq_refl ltac:(discriminate) H1 H2) as (_ & Hpost & Htotal).
  destruct (Htotal eq_refl ltac:(discriminate) ltac:(by eexists))
    as [w' Hw'].
  exists w'. split; [exact Hw'|]. by apply (Hpost true w' Hw').
Defined.

(** C7, as stated: the empty response of a panic would stand against the
    response logic of the same tick.  It does not: with the panic and
    end-call signals both set, the tick of 100 s issues the empty sequence
    and then, the call having ended, generates a response, which is the
    last sequence issued and the response at the end of the tick. *)
Lemma panic_then_response :
  let w := sample_world true true false in
  panic w = true /\
  exists w',
    run_tick sample_trim sample_args silent_hub (mkClock 100.1 100.1)
      sample_call w = Ok true w' /\
    trace w' !! 0%nat = Some (update_sequence 2%nat None) /\
    last (trace w') = Some (update_sequence 6%nat (Some 100%float)) /\
    response_sequence w' = 6%nat /\
    (length <$> (notes <$> heap w' !! response_sequence w')) = Some 1%nat.
Proof.
  cbv zeta. split; [reflexivity|].
  eexists. split; [vm_compute; reflexivity|]. repeat split.
Qed.

(** C7, amended.  On a tick that is not stopped and at whose start the
    panic signal is set, whatever the state, the loop first makes a new
    empty sequence the response, issues it to the player and clears the
    signal; the rest of the iteration, the response logic included, runs
    from there.  When the iteration completes, the signal is clear and the
    first call of the tick is the one issuing the empty sequence; a
    response generated on the same tick replaces it. *)
Theorem panic_handled_first
    (trim_note_sequence : NoteSequence -> float -> float -> NoteSequence)
    (a : Args) (midi_hub : MidiHub) (clock : Clock)
    (captured : NoteSequence) (w : World) :
  stop_signal w = false ->
  panic w = true ->
  let empty := S (length (heap w)) in
  let w1 := world_after_panic captured w in
  run_tick trim_note_sequence a midi_hub clock captured w
  = bind (tick_logic trim_note_sequence a midi_hub clock (captured_ref w))
         (fun _ => ret true) w1 /\
  response_sequence w1 = empty /\
  heap w1 = heap w ++ [captured; NoteSequence_new] /\
  heap w1 !! empty = Some NoteSequence_new /\
  trace w1 = trace w ++ [update_sequence empty None] /\
  panic w1 = false /\
  forall continue w',
    run_tick trim_note_sequence a midi_hub clock captured w = Ok continue w' ->
    panic w' = false /\
    exists evs, trace w' = trace w ++ update_sequence empty None :: evs.
Proof.
  intros Hstop Hpanic empty w1.
  assert (Hrun := run_tick_after_panic trim_note_sequence a midi_hub clock
                    captured w Hstop).
  fold w1 in Hrun.
  assert (Hw1 : w1 = set_panic false
            (set_trace (trace w ++ [update_sequence empty None])
               (set_response_sequence empty
                  (set_heap (heap w ++ [captured; NoteSequence_new]) w)))).
  { subst w1. unfold world_after_panic. by rewrite Hpanic. }
  split; [exact Hrun|].
  rewrite Hw1. cbn [response_sequence heap trace panic set_panic set_trace
                    set_response_sequence set_heap].
  split; [reflexivity|]. split; [reflexivity|].
  split.
  { apply lookup_after_captured. }
  split; [reflexivity|]. split; [reflexivity|].
  intros continue w' Hok. rewrite Hrun in Hok.
  apply bind_Ok in Hok as (x & w2 & Hlogic & Hret).
  injection Hret as _ <-.
  split.
  { rewrite (tick_logic_keeps_panic _ _ _ _ _ _ _ _ Hlogic).
    by rewrite Hw1. }
  destruct (tick_logic_emits _ _ _ _ _ _ _ _ Hlogic) as (evs & Hevs & _).
  exists evs. rewrite Hevs, Hw1. cbn. by rewrite <- app_assoc.
Qed.

Lemma panic_handled_first_witness :
  let w := sample_world true true false in
  panic w = true /\
  exists w',
    run_tick sample_trim sample_args silent_hub (mkClock 100.1 100.1)
      sample_call w = Ok true w' /\
    panic w' = false.
Proof.
  cbv zeta. split; [reflexivity|].
  eexists. split; [vm_compute; reflexivity|].
  eapply (panic_handled_first sample_trim sample_args silent_hub
            (mkClock 100.1 100.1) sample_call (sample_world true true false)
            eq_refl eq_refl).
  vm_compute. reflexivity.
Defined.

(** ** The response to a call *)

Lemma ret_eq {A} (x : A) (w : World) : ret x w = Ok x w.
Proof. reflexivity. Qed.

Lemma emit_eq e w : emit e w = Ok tt (set_trace (trace w ++ [e]) w).
Proof. reflexivity. Qed.

Lemma assign_eq {A} (set : A -> World -> World) x w :
  assign set x w = Ok tt (set x w).
Proof. reflexivity. Qed.

Lemma gets_eq {A} (f : World -> A) w : gets f w = Ok (f w) w.
Proof. reflexivity. Qed.

Lemma lookup_offset (h l : Heap) (k : nat) :
  (h ++ l) !! (length h + k)%nat = l !! k.
Proof. rewrite lookup_app_r by lia. f_equal. lia. Qed.

(** One step of a computation: the first action is run with the equation
    [eq], and the world it leaves is put in normal form. *)
Tactic Notation "step" "with" uconstr(eq) :=
  unfold bind at 1; rewrite eq; cbv beta iota; world_norm.
Tactic Notation "step" "with" uconstr(eq) "by" tactic3(tac) :=
  unfold bind at 1; erewrite eq by tac; cbv beta iota; world_norm.

Section respond.
Context (trim_note_sequence : NoteSequence -> float -> float -> NoteSequence).
Context (a : Args) (midi_hub : MidiHub) (clock : Clock).

Lemma _generate_eq input zero_time response_start_time response_end_time
    w input_value generator :
  heap w !! input = Some input_value ->
  _sequence_generator a midi_hub = inr generator ->
  _generate trim_note_sequence a midi_hub input zero_time
    response_start_time response_end_time w
  = Ok (length (heap w) + 3)%nat
      (set_trace
         (trace w ++
            [log_generating (details_id generator);
             call_generate (details_id generator) (length (heap w))
               (options_of a midi_hub zero_time response_start_time
                  response_end_time)])
         (set_heap
            (heap w ++
               [retimed input_value (- zero_time)%float;
                generate generator (retimed input_value (- zero_time)%float)
                  (options_of a midi_hub zero_time response_start_time
                     response_end_time);
                trim_note_sequence
                  (generate generator
                     (retimed input_value (- zero_time)%float)
                     (options_of a midi_hub zero_time response_start_time
                        response_end_time))
                  (response_start_time - zero_time)%float
                  (response_end_time - zero_time)%float;
                generated_response trim_note_sequence a midi_hub generator
                  input_value zero_time response_start_time
                  response_end_time])
            w)).
Proof.
  intros Hin Hgen.
  destruct w as [h st ec pn mu cst ltt lt rs rst rd tr]. cbn in Hin.
  unfold _generate. rewrite Hgen. cbn [lift_exn].
  unfold bind at 1, ret at 1.
  unfold bind at 1. rewrite emit_eq. world_simpl.
  unfold bind at 1. rewrite (on_heap_adjust _ _ input_value) by exact Hin.
  world_simpl.
  unfold bind at 1.
  rewrite (on_heap_deref _ _ (retimed input_value (- zero_time)%float))
    by apply lookup_last.
  unfold bind at 1. rewrite emit_eq. world_simpl.
  unfold bind at 1. rewrite on_heap_alloc. world_simpl.
  unfold bind at 1. erewrite on_heap_deref by apply lookup_last.
  unfold bind at 1. rewrite on_heap_alloc. world_simpl.
  erewrite on_heap_adjust by apply lookup_last. world_simpl.
  rewrite !length_app, <- !app_assoc. cbn [length app].
  unfold generated_response, options_of.
  f_equal. lia.
Qed.

Lemma _update_state_eq state w :
  _update_state a state w
  = Ok tt (set_trace (trace w ++ state_events a state) w).
Proof.
  unfold _update_state, state_events, bind, when, emit, modify, ret.
  destruct (state_control_number a) as [number|].
  - rewrite bool_decide_eq_true_2 by done.
    destruct w. cbn. by rewrite <- app_assoc.
  - rewrite bool_decide_eq_false_2 by (intros H; by apply H).
    reflexivity.
Qed.

(** [respond] up to the test for a late response. *)
Ltac respond_generate Hcv Hgen :=
  unfold respond;
  step with _update_state_eq;
  step with gets_eq;
  match goal with
  | |- context [if ?b then _ else _] =>
      match type of b with bool => is_var b; destruct b end
  end;
  cbv beta iota;
  [ unfold bind at 1;
    step with on_heap_adjust by exact Hcv;
    step with on_heap_update by apply lookup_last;
    rewrite insert_last, ret_eq; cbv beta iota; cbn [fst snd]
  | unfold bind at 1; rewrite ret_eq; cbv beta iota; cbn [fst snd] ];
  (step with assign_eq);
  (step with assign_eq);
  [ step with _generate_eq by first [apply lookup_last | exact Hgen]
  | step with _generate_eq by first [exact Hcv | exact Hgen] ];
  (step with assign_eq);
  unfold push_late_response;
  unfold bind at 1; (step with gets_eq).

(** [respond] after that test. *)
Ltac respond_issue :=
  (step with gets_eq);
  (step with gets_eq);
  (step with emit_eq);
  match goal with
  | |- context [allow_overlap ?a] => destruct (allow_overlap a)
  end;
  rewrite assign_eq.

Lemma respond_eq (captured_sequence : ref) (silent_tick : bool)
    (tick_time tick_duration : float) (w : World) (cv : NoteSequence)
    (generator : SequenceGenerator) :
  heap w !! captured_sequence = Some cv ->
  _sequence_generator a midi_hub = inr generator ->
  let seed :=
    if silent_tick
    then set_total_time tick_time (retimed cv tick_duration) else cv in
  let zero :=
    if silent_tick
    then (captor_start_time w + tick_duration)%float
    else captor_start_time w in
  let num_ticks := control_value midi_hub (response_ticks_control_number a) in
  let duration :=
    if truthy num_ticks
    then (F.of_Z (default 0%Z num_ticks) * tick_duration)%float
    else (tick_time - zero)%float in
  let g :=
    generated_response trim_note_sequence a midi_hub generator seed zero
      tick_time (tick_time + duration)%float in
  (late clock tick_time tick_duration = false ->
   exists w',
     respond trim_note_sequence a midi_hub clock captured_sequence
       silent_tick tick_time tick_duration w = Ok tt w' /\
     heap w' !! response_sequence w' = Some g /\
     response_start_time w' = tick_time /\
     last (trace w')
     = Some (update_sequence (response_sequence w') (Some tick_time))) /\
  (forall quotient,
     late clock tick_time tick_duration = true ->
     F.floordiv (time_at_push clock - tick_time)%float tick_duration
     = inr quotient ->
     let shift := ((quotient + 1) * tick_duration)%float in
     exists w',
       respond trim_note_sequence a midi_hub clock captured_sequence
         silent_tick tick_time tick_duration w = Ok tt w' /\
       heap w' !! response_sequence w' = Some (retimed g shift) /\
       response_start_time w' = (tick_time + shift)%float /\
       last (trace w')
       = Some (update_sequence (response_sequence w')
                 (Some (tick_time + shift)%float))) /\
  (forall e,
     late clock tick_time tick_duration = true ->
     F.floordiv (time_at_push clock - tick_time)%float tick_duration
     = inl e ->
     respond trim_note_sequence a midi_hub clock captured_sequence
       silent_tick tick_time tick_duration w = Raise e).
Proof.
  intros Hcv Hgen seed zero num_ticks duration g.
  destruct w as [h st ec pn mu cst ltt lt rs rst rd tr]. cbn in Hcv.
  unfold late. split; [|split].
  - intros Hlate. respond_generate Hcv Hgen.
    all: rewrite Hlate; cbn [when]; rewrite ret_eq; cbv beta iota.
    all: respond_issue.
    all: eexists; split; [reflexivity|]; world_norm.
    all: rewrite last_snoc, lookup_offset.
    all: repeat split.
  - intros quotient Hlate Hq. respond_generate Hcv Hgen.
    all: rewrite Hlate; cbn [when].
    all: unfold bind at 1; rewrite Hq; cbn [lift_exn];
      rewrite ret_eq; cbv beta iota.
    all: (step with assign_eq).
    all: (step with gets_eq).
    all: (step with on_heap_adjust
            by (world_norm; rewrite lookup_offset; reflexivity)).
    all: (step with assign_eq).
    all: rewrite emit_eq; cbv beta iota; world_norm.
    all: respond_issue.
    all: eexists; split; [reflexivity|]; world_norm.
    all: rewrite last_snoc, lookup_last.
    all: repeat split.
  - intros e Hlate He. respond_generate Hcv Hgen.
    all: rewrite Hlate; cbn [when].
    all: unfold bind at 1; rewrite He; reflexivity.
Qed.
End respond.

Section answered.
Context (trim_note_sequence : NoteSequence -> float -> float -> NoteSequence).
Context (a : Args) (midi_hub : MidiHub) (clock : Clock).

Lemma end_of_call_responds captured_sequence silent_tick tick_time
    tick_duration w :
  _min_listen_ticks a midi_hub <= listen_ticks w ->
  end_of_call trim_note_sequence a midi_hub clock
    captured_sequence silent_tick tick_time tick_duration w
  = bind (respond trim_note_sequence a midi_hub clock
            captured_sequence silent_tick tick_time tick_duration)
         (fun _ => assign set_end_call false ;; assign set_listen_ticks 0)%py
         w.
Proof.
  intros Hmin. unfold end_of_call. unfold bind at 1. rewrite gets_eq.
  apply Z.ltb_ge in Hmin. rewrite Hmin. reflexivity.
Qed.

Lemma run_tick_responds captured w :
  stop_signal w = false ->
  tempos captured <> [] ->
  notes captured <> [] ->
  call_ends a midi_hub (end_call w) (silent_tick_of captured w)
    (listened_of captured w) = true ->
  _min_listen_ticks a midi_hub <= listened_of captured w ->
  run_tick trim_note_sequence a midi_hub clock captured w
  = match respond trim_note_sequence a midi_hub clock
            (captured_ref w) (silent_tick_of captured w)
            (tick_time_of captured) (tick_duration_of captured w)
            (world_before_call a midi_hub captured w) with
    | Ok _ w1 =>
        after_call trim_note_sequence a midi_hub (tick_time_of captured)
          (set_listen_ticks 0 (set_end_call false w1))
    | Raise e => Raise e
    end.
Proof.
  intros Hstop Ht Hnotes Hends Hmin.
  rewrite run_tick_stages by done. unfold bind at 1.
  rewrite handle_call_ends by done.
  rewrite end_of_call_responds
    by (by rewrite world_before_call_listen_ticks).
  unfold bind at 1. by destruct (respond _ _ _ _ _ _ _ _ _).
Qed.
End answered.

(** In exact arithmetic the push of lines 453-454 is never less than
    [ceil(elapsed / tick_duration)] ticks; it is that number unless the
    elapsed time is a whole number of ticks, and one more when it is. *)
Lemma exact_push_ticks_ceiling (elapsed tick_duration : Q) :
  let x := (elapsed / tick_duration)%Q in
  Qceiling x <= exact_push_ticks elapsed tick_duration /\
  (forall n, (x == inject_Z n)%Q ->
     exact_push_ticks elapsed tick_duration = Qceiling x + 1) /\
  ((forall n, ~ (x == inject_Z n)%Q) ->
   exact_push_ticks elapsed tick_duration = Qceiling x).
Proof.
  intros x. unfold exact_push_ticks. fold x.
  pose proof (Qfloor_le x) as Hfl.
  pose proof (Qlt_floor x) as Hfu.
  pose proof (Qle_ceiling x) as Hcu.
  pose proof (Qceiling_lt x) as Hcl.
  assert (Hle : Qceiling x <= Qfloor x + 1).
  { assert (H : (inject_Z (Qceiling x - 1) < inject_Z (Qfloor x + 1))%Q)
      by (eapply Qlt_trans; eauto).
    rewrite <- Zlt_Qlt in H. lia. }
  split; [exact Hle|]. split.
  - intros n Hn.
    assert (Hf : Qfloor x = n) by (rewrite Hn; apply Qfloor_Z).
    assert (Hc : Qceiling x = n) by (rewrite Hn; apply Qceiling_Z).
    lia.
  - intros Hnot.
    assert (H : (inject_Z (Qfloor x) < inject_Z (Qceiling x))%Q).
    { apply Qle_lt_trans with x; [exact Hfl|].
      apply Qle_lteq in Hcu as [Hlt|Heq]; [exact Hlt|].
      by destruct (Hnot (Qceiling x)). }
    rewrite <- Zlt_Qlt in H. lia.
Qed.

(** C1, as stated: a late response would be pushed by
    [ceil(t / tick_duration)] ticks.  With ticks of 2 s and a generation
    that ends 2 s after the tick of 100 s, that is one tick, to 102 s; the
    loop pushes the response by two, [2 // 2 + 1], to 104 s, its note
    from 100 s to 102 s being moved to 104 s. *)
Lemma late_response_pushed_two_ticks :
  let w := sample_world true false false in
  late one_tick_late (tick_time_of sample_call) (tick_duration_of sample_call w)
  = true /\
  claimed_push_ticks
    (time_at_test one_tick_late - tick_time_of sample_call)
    (tick_duration_of sample_call w) = 1%float /\
  exists w',
    run_tick sample_trim sample_args silent_hub one_tick_late sample_call w
    = Ok true w' /\
    response_start_time w' = 104%float /\
    (response_start_time w'
     =? tick_time_of sample_call
        + claimed_push_ticks
            (time_at_test one_tick_late - tick_time_of sample_call)
            (tick_duration_of sample_call w)
          * tick_duration_of sample_call w)%float = false /\
    last (trace w') = Some (update_sequence 6%nat (Some 104%float)) /\
    (notes <$> heap w' !! 6%nat) = Some [mkNote 72 80 104 106].
Proof.
  cbv zeta. split; [vm_compute; reflexivity|].
  split; [vm_compute; reflexivity|].
  eexists. split; [vm_compute; reflexivity|].
  repeat split.
Qed.

(** ** More on the parameters read from the hub *)

(** X1. With at least one generator, selecting the generator never raises:
    it is the generator at index [val % len], [val] being the control value
    or 0 when there is none, which is a valid index also for a negative
    value; with one generator that is the generator, whatever the hub. *)
Theorem sequence_generator_selected (a : Args) (midi_hub : MidiHub) :
  sequence_generators a <> [] ->
  let gens := sequence_generators a in
  let val :=
    default 0 (control_value midi_hub (generator_select_control_number a)) in
  let index := Z.to_nat (val mod Z.of_nat (length gens)) in
  (index < length gens)%nat /\
  exists g,
    _sequence_generator a midi_hub = inr g /\
    gens !! index = Some g /\
    (length gens = 1%nat -> gens = [g]).
Proof.
  intros Hne gens val index.
  assert (Hlen : (0 < length gens)%nat).
  { subst gens. destruct (sequence_generators a); [done|cbn; lia]. }
  assert (Hidx : (index < length gens)%nat).
  { subst index.
    pose proof (Z.mod_pos_bound val (Z.of_nat (length gens))). lia. }
  split; [exact Hidx|].
  destruct (lookup_lt_is_Some_2 gens index Hidx) as [g Hg].
  exists g. unfold _sequence_generator. fold gens.
  destruct (length gens =? 1)%nat eqn:Hone.
  - apply Nat.eqb_eq in Hone.
    assert (index = 0%nat) as Hz.
    { subst index. rewrite Hone. rewrite Z.mod_1_r. reflexivity. }
    rewrite Hz in Hg. rewrite Hg. split; [done|]. split; [by rewrite Hz|].
    intros _. destruct gens as [|g0 [|? ?]]; cbn in *; try lia. congruence.
  - apply Nat.eqb_neq in Hone.
    destruct (length gens =? 0)%nat eqn:Hzero;
      [apply Nat.eqb_eq in Hzero; lia|].
    split; [|split; [done|intros; lia]].
    subst index val. cbv [default from_option id] in Hg.
    cbv zeta. by rewrite Hg.
Qed.

Lemma sequence_generator_selected_witness :
  sequence_generators two_generator_args <> [] /\
  _sequence_generator two_generator_args (hub_with 1 (-1))
  = inr silent_generator.
Proof.
  split; [discriminate|].
  destruct (sequence_generator_selected two_generator_args (hub_with 1 (-1)))
    as (_ & g & Hg & Hidx & _); [discriminate|].
  rewrite Hg. f_equal. vm_compute in Hidx. injection Hidx as <-. reflexivity.
Defined.

(** X2. The constructor accepts an empty collection of generators (with a
    clock signal or a tick duration); selecting a generator then raises
    ZeroDivisionError, and so does every generation. *)
Theorem no_generator_fails_at_generation
    (trim_note_sequence : NoteSequence -> float -> float -> NoteSequence)
    (a : Args) (midi_hub : MidiHub) :
  sequence_generators a = [] ->
  count_None (clock_signal a) (tick_duration_arg a) = 1%nat ->
  (exists self, CallAndResponseMidiInteraction_init a = inr self) /\
  _sequence_generator a midi_hub = inl ZeroDivisionError /\
  forall input zero_time response_start_time response_end_time w,
    _generate trim_note_sequence a midi_hub input zero_time
      response_start_time response_end_time w = Raise ZeroDivisionError.
Proof.
  intros Hnone Hclock. split; [|split].
  - unfold CallAndResponseMidiInteraction_init, MidiInteraction_init.
    rewrite Hnone, Hclock. cbn. rewrite andb_false_r. by eexists.
  - unfold _sequence_generator. by rewrite Hnone.
  - intros. unfold _generate, _sequence_generator. by rewrite Hnone.
Qed.

Lemma no_generator_fails_at_generation_witness :
  (exists self, CallAndResponseMidiInteraction_init no_generator_args = inr self) /\
  _sequence_generator no_generator_args silent_hub = inl ZeroDivisionError.
Proof.
  destruct (no_generator_fails_at_generation sample_trim no_generator_args
              silent_hub eq_refl eq_refl) as (H1 & H2 & _).
  split; [exact H1 | exact H2].
Defined.

(** ** Ticks without a response *)

Section ticks.
Context (trim_note_sequence : NoteSequence -> float -> float -> NoteSequence).
Context (a : Args) (midi_hub : MidiHub) (clock : Clock).

Lemma world_before_call_response captured w response :
  heap w !! response_sequence w = Some response ->
  heap (world_before_call a midi_hub captured w)
    !! response_sequence (world_before_call a midi_hub captured w)
  = Some (response_before_call w response).
Proof.
  intros Hr.
  unfold world_before_call, world_after_panic, captured_ref,
    response_before_call.
  destruct w as [h st ec pn mu cst ltt lt rs rst rd tr]. cbn in Hr.
  destruct pn, (bool_decide (clock_signal a = None)
                && bool_decide (metronome_channel a <> None));
    world_simpl; rewrite insert_captured;
    first [ apply lookup_after_captured | by apply lookup_app_l_Some ].
Qed.

Lemma keep_idling_eq tick_time w response :
  heap w !! response_sequence w = Some response ->
  keep_idling a tick_time w
  = Ok tt (world_after_idle a tick_time response w).
Proof.
  intros Hr. unfold keep_idling, world_after_idle.
  destruct w as [h st ec pn mu cst ltt lt rs rst rd tr]. cbn in Hr.
  unfold bind at 1. rewrite gets_eq. cbn [response_sequence].
  unfold bind at 1. rewrite (on_heap_deref _ _ response) by exact Hr.
  unfold bind at 1.
  destruct (total_time response <=? tick_time)%float; unfold when at 1;
    [rewrite _update_state_eq | rewrite ret_eq];
    unfold bind, gets, when, assign, modify, ret; world_simpl;
    destruct (cst <? tick_time)%float; reflexivity.
Qed.

Lemma run_tick_idle captured w response :
  stop_signal w = false ->
  tempos captured <> [] ->
  notes captured = [] ->
  heap w !! response_sequence w = Some response ->
  run_tick trim_note_sequence a midi_hub clock captured w
  = after_call trim_note_sequence a midi_hub (tick_time_of captured)
      (world_after_idle a (tick_time_of captured)
         (response_before_call w response)
         (world_before_call a midi_hub captured w)).
Proof.
  intros Hstop Htempos Hnotes Hr.
  rewrite run_tick_stages by done. unfold bind at 1.
  rewrite (handle_call_cases _ _ _ _ _ _ _ _ _
             (captured_with_qpm a midi_hub captured))
    by apply world_before_call_captured.
  cbn [captured_with_qpm set_tempos notes]. rewrite Hnotes.
  by rewrite (keep_idling_eq _ _ (response_before_call w response))
    by by apply world_before_call_response.
Qed.

Lemma run_tick_listening captured w :
  stop_signal w = false ->
  tempos captured <> [] ->
  notes captured <> [] ->
  call_ends a midi_hub (end_call w) (silent_tick_of captured w)
    (listened_of captured w) = false ->
  run_tick trim_note_sequence a midi_hub clock captured w
  = after_call trim_note_sequence a midi_hub (tick_time_of captured)
      (set_trace
         (trace (world_before_call a midi_hub captured w)
          ++ state_events a LISTENING)
         (world_before_call a midi_hub captured w)).
Proof.
  intros Hstop Htempos Hnotes Hends.
  rewrite run_tick_stages by done. unfold bind at 1.
  rewrite (handle_call_cases _ _ _ _ _ _ _ _ _
             (captured_with_qpm a midi_hub captured))
    by apply world_before_call_captured.
  cbn [captured_with_qpm set_tempos notes].
  destruct (notes captured) as [|n ns]; [done|].
  rewrite world_before_call_listen_ticks.
  rewrite (world_before_call_keeps a midi_hub end_call) by reflexivity.
  by rewrite Hends, _update_state_eq.
Qed.

Lemma state_events_report state : Forall reports_state (state_events a state).
Proof.
  unfold state_events. destruct (state_control_number a); by repeat constructor.
Qed.

Lemma world_before_call_quiet captured w :
  emitting (fun e => ~ reports_state e) w
    (world_before_call a midi_hub captured w).
Proof. apply world_before_call_emits; intros; cbn; tauto. Qed.

Lemma after_call_quiet tick_time :
  respects (emitting (fun e => ~ reports_state e))
    (after_call trim_note_sequence a midi_hub tick_time).
Proof. apply after_call_emits; intros; cbn; tauto. Qed.
End ticks.

Lemma world_after_idle_fields (a : Args) (tick_time : float)
    (response : NoteSequence) (w : World) :
  let w' := world_after_idle a tick_time response w in
  heap w' = heap w /\ response_sequence w' = response_sequence w /\
  mutate w' = mutate w /\ listen_ticks w' = 0 /\ end_call w' = false /\
  captor_start_time w'
  = (if (captor_start_time w <? tick_time)%float
     then tick_time else captor_start_time w) /\
  trace w'
  = trace w ++ (if (total_time response <=? tick_time)%float
                then state_events a IDLE else []).
Proof.
  unfold world_after_idle.
  destruct (total_time response <=? tick_time)%float,
    (captor_start_time w <? tick_time)%float;
    world_norm; rewrite ?app_nil_r; done.
Qed.

(** X3. A tick on which nothing was captured, the loop not being stopped:
    the count of listen ticks and the end-call signal are reset, the
    capture window starts at the tick time unless it already starts at or
    after it, and the state reported is IDLE when the response (a new empty
    one after a panic signal) has ended by the tick time and none
    otherwise.  The tick completes when no mutation is pending. *)
Theorem idle_tick
    (trim_note_sequence : NoteSequence -> float -> float -> NoteSequence)
    (a : Args) (midi_hub : MidiHub) (clock : Clock)
    (captured : NoteSequence) (w : World) (response : NoteSequence) :
  stop_signal w = false ->
  tempos captured <> [] ->
  notes captured = [] ->
  heap w !! response_sequence w = Some response ->
  let tick_time := tick_time_of captured in
  let ended :=
    (total_time (response_before_call w response) <=? tick_time)%float in
  (mutate w = false ->
   exists w',
     run_tick trim_note_sequence a midi_hub clock captured w = Ok true w') /\
  forall continue w',
    run_tick trim_note_sequence a midi_hub clock captured w = Ok continue w' ->
    listen_ticks w' = 0 /\ end_call w' = false /\
    captor_start_time w'
    = (if (captor_start_time w <? tick_time)%float
       then tick_time else captor_start_time w) /\
    exists before after,
      trace w'
      = trace w ++ before ++ (if ended then state_events a IDLE else [])
          ++ after /\
      Forall (fun e => ~ reports_state e) before /\
      Forall (fun e => ~ reports_state e) after.
Proof.
  intros Hstop Htempos Hnotes Hr tick_time ended.
  rewrite (run_tick_idle _ _ _ _ _ _ response) by done.
  fold tick_time.
  set (wb := world_before_call a midi_hub captured w).
  destruct (world_after_idle_fields a tick_time
              (response_before_call w response) wb)
    as (Hh & Hrs & Hmu & Hlt & Hec & Hcst & Htr).
  split.
  - intros Hquiet. eexists.
    apply (after_call_eq _ _ _ _ _ (response_before_call w response)).
    + rewrite Hh, Hrs. by apply world_before_call_response.
    + left. rewrite Hmu. subst wb.
      by rewrite (world_before_call_keeps a midi_hub mutate) by reflexivity.
  - intros continue w' Hrun.
    rewrite (after_call_keeps_listen_ticks _ _ _ _ _ _ _ Hrun).
    rewrite (after_call_keeps_end_call _ _ _ _ _ _ _ Hrun).
    rewrite (after_call_keeps_captor_start_time _ _ _ _ _ _ _ Hrun).
    split; [done|]. split; [done|]. split.
    { rewrite Hcst. subst wb.
      by rewrite (world_before_call_keeps a midi_hub captor_start_time)
        by reflexivity. }
    destruct (after_call_quiet _ _ _ _ _ _ _ Hrun) as (after & Hafter & Hq2).
    destruct (world_before_call_quiet trim_note_sequence a midi_hub captured w)
      as (before & Hbefore & Hq1).
    exists before, after. split; [|done].
    rewrite Hafter, Htr. subst wb. rewrite Hbefore.
    by rewrite <- !app_assoc.
Qed.

Lemma idle_tick_witness :
  exists w',
    run_tick sample_trim sample_args silent_hub (mkClock 100.1 100.1)
      idle_capture (sample_world false false false) = Ok true w' /\
    listen_ticks w' = 0 /\
    (captor_start_time w' =? 100)%float = true.
Proof.
  destruct (idle_tick sample_trim sample_args silent_hub (mkClock 100.1 100.1)
              idle_capture (sample_world false false false) NoteSequence_new)
    as [Hruns Hafter]; [reflexivity|discriminate|reflexivity|reflexivity|].
  destruct (Hruns eq_refl) as [w' Hw']. exists w'.
  destruct (Hafter _ _ Hw') as (Hlt & _ & Hcst & _).
  split; [exact Hw'|]. split; [exact Hlt|]. rewrite Hcst. reflexivity.
Defined.

(** X4. A tick on which notes were captured and the call does not end (no
    end-call signal, no silent tick, the limit not reached): the count of
    listen ticks is one more than before and below the limit, the capture
    window and the end-call signal are as they were, and the state
    reported is LISTENING.  The tick completes when no mutation is
    pending. *)
Theorem listening_tick
    (trim_note_sequence : NoteSequence -> float -> float -> NoteSequence)
    (a : Args) (midi_hub : MidiHub) (clock : Clock)
    (captured : NoteSequence) (w : World) :
  stop_signal w = false ->
  tempos captured <> [] ->
  notes captured <> [] ->
  call_ends a midi_hub (end_call w) (silent_tick_of captured w)
    (listened_of captured w) = false ->
  (forall response,
     mutate w = false ->
     heap w !! response_sequence w = Some response ->
     exists w',
       run_tick trim_note_sequence a midi_hub clock captured w = Ok true w') /\
  forall continue w',
    run_tick trim_note_sequence a midi_hub clock captured w = Ok continue w' ->
    listen_ticks w' = listen_ticks w + 1 /\
    reaches (listen_ticks w') (_max_listen_ticks a midi_hub) = false /\
    end_call w' = false /\ end_call w = false /\
    captor_start_time w' = captor_start_time w /\
    exists before after,
      trace w' = trace w ++ before ++ state_events a LISTENING ++ after /\
      Forall (fun e => ~ reports_state e) before /\
      Forall (fun e => ~ reports_state e) after.
Proof.
  intros Hstop Htempos Hnotes Hends.
  rewrite run_tick_listening by done.
  set (wb := world_before_call a midi_hub captured w).
  unfold call_ends in Hends.
  apply orb_false_elim in Hends as [[Hec Hsilent]%orb_false_elim Hmax].
  assert (Hlt : listened_of captured w = listen_ticks w + 1).
  { unfold listened_of. by rewrite Hsilent. }
  split.
  - intros response Hquiet Hr. eexists.
    apply (after_call_eq _ _ _ _ _ (response_before_call w response)).
    + world_norm. by apply world_before_call_response.
    + left. world_norm. subst wb.
      by rewrite (world_before_call_keeps a midi_hub mutate) by reflexivity.
  - intros continue w' Hrun.
    rewrite (after_call_keeps_listen_ticks _ _ _ _ _ _ _ Hrun).
    rewrite (after_call_keeps_end_call _ _ _ _ _ _ _ Hrun).
    rewrite (after_call_keeps_captor_start_time _ _ _ _ _ _ _ Hrun).
    world_norm. subst wb.
    rewrite world_before_call_listen_ticks.
    rewrite (world_before_call_keeps a midi_hub end_call) by reflexivity.
    rewrite (world_before_call_keeps a midi_hub captor_start_time)
      by reflexivity.
    do 5 (split; [done|]).
    destruct (after_call_quiet _ _ _ _ _ _ _ Hrun) as (after & Hafter & Hq2).
    destruct (world_before_call_quiet trim_note_sequence a midi_hub captured w)
      as (before & Hbefore & Hq1).
    exists before, after. split; [|done].
    rewrite Hafter. world_norm. rewrite Hbefore.
    by rewrite <- !app_assoc.
Qed.

Lemma listening_tick_witness :
  exists w',
    run_tick sample_trim sample_args silent_hub (mkClock 100.1 100.1)
      sample_call (sample_world false false false) = Ok true w' /\
    listen_ticks w' = 1.
Proof.
  destruct (listening_tick sample_trim sample_args silent_hub
              (mkClock 100.1 100.1) sample_call
              (sample_world false false false))
    as [Hruns Hafter]; [reflexivity|discriminate|discriminate|reflexivity|].
  destruct (Hruns NoteSequence_new eq_refl eq_refl) as [w' Hw']. exists w'.
  destruct (Hafter _ _ Hw') as (Hlt & _).
  split; [exact Hw'|exact Hlt].
Defined.

(** ** What every completed tick leaves *)

Lemma never_setting_refl f w : never_setting f w w.
Proof. by intros H. Qed.

Lemma never_setting_trans f w1 w2 w3 :
  never_setting f w1 w2 -> never_setting f w2 w3 -> never_setting f w1 w3.
Proof. unfold never_setting. auto. Qed.

Section completed.
Context (trim_note_sequence : NoteSequence -> float -> float -> NoteSequence).
Context (a : Args) (midi_hub : MidiHub) (clock : Clock).

Lemma tick_logic_never_sets_mutate captured_sequence :
  respects (never_setting mutate)
    (tick_logic trim_note_sequence a midi_hub clock captured_sequence).
Proof.
  respects_with ltac:(apply never_setting_refl)
                ltac:(apply never_setting_trans)
                ltac:(unfold never_setting; world_norm;
                      first [done | by intros])
                ltac:(unfold_loop).
Qed.

Lemma after_call_last_tick_time tick_time w continue w' :
  after_call trim_note_sequence a midi_hub tick_time w = Ok continue w' ->
  continue = true /\ last_tick_time w' = tick_time.
Proof.
  unfold after_call.
  intros (x & w1 & _ & (y & w2 & _ & (z & w3 & H3 & H4)%bind_Ok)%bind_Ok)%bind_Ok.
  unfold assign, modify in H3. unfold ret in H4.
  injection H3 as _ <-. injection H4 as <- <-. done.
Qed.

Lemma keep_idling_resets tick_time w x w' :
  keep_idling a tick_time w = Ok x w' ->
  listen_ticks w' = 0 /\ end_call w' = false.
Proof.
  destruct (heap w !! response_sequence w) as [response|] eqn:Hr.
  - rewrite (keep_idling_eq _ _ _ response) by exact Hr.
    intros [= _ <-].
    by destruct (world_after_idle_fields a tick_time response w)
      as (_ & _ & _ & ? & ? & _).
  - unfold keep_idling, bind, gets, on_heap, deref. by rewrite Hr.
Qed.

Lemma handle_call_counts captured w x w1 :
  handle_call trim_note_sequence a midi_hub clock
    (captured_ref w) (silent_tick_of captured w)
    (tick_time_of captured) (tick_duration_of captured w)
    (world_before_call a midi_hub captured w) = Ok x w1 ->
  end_call w1 = false /\
  (listen_ticks w1 = 0 \/
   listen_ticks w1 = listen_ticks w + 1 /\
   reaches (listen_ticks w1) (_max_listen_ticks a midi_hub) = false).
Proof.
  rewrite (handle_call_cases _ _ _ _ _ _ _ _ _
             (captured_with_qpm a midi_hub captured))
    by apply world_before_call_captured.
  cbn [captured_with_qpm set_tempos notes].
  destruct (notes captured) as [|n ns].
  { intros [? ?]%keep_idling_resets. auto. }
  rewrite world_before_call_listen_ticks.
  rewrite (world_before_call_keeps a midi_hub end_call) by reflexivity.
  destruct (call_ends _ _ _ _ _) eqn:Hends.
  { intros [? ?]%end_of_call_resets. auto. }
  rewrite _update_state_eq. intros [= _ <-]. world_norm.
  rewrite world_before_call_listen_ticks.
  rewrite (world_before_call_keeps a midi_hub end_call) by reflexivity.
  unfold call_ends in Hends.
  apply orb_false_elim in Hends as [[Hec Hsilent]%orb_false_elim Hmax].
  split; [done|]. right. split; [|done].
  unfold listened_of. by rewrite Hsilent.
Qed.
End completed.

Lemma run_tick_leaves
    (trim_note_sequence : NoteSequence -> float -> float -> NoteSequence)
    (a : Args) (midi_hub : MidiHub) (clock : Clock)
    (captured : NoteSequence) (w : World) (continue : bool) (w' : World) :
  stop_signal w = false ->
  run_tick trim_note_sequence a midi_hub clock captured w = Ok continue w' ->
  continue = true /\ stop_signal w' = false /\ end_call w' = false /\
  (listen_ticks w' = 0 \/
   listen_ticks w' = listen_ticks w + 1 /\
   reaches (listen_ticks w') (_max_listen_ticks a midi_hub) = false).
Proof.
  intros Hstop Hrun.
  assert (Hsignals : continue = true /\ stop_signal w' = false).
  { pose proof Hrun as Hrun'. rewrite run_tick_after_panic in Hrun' by done.
    apply bind_Ok in Hrun' as (x & w1 & Hlogic & [= <- <-]).
    rewrite (tick_logic_keeps_stop_signal _ _ _ _ _ _ _ _ Hlogic).
    unfold world_after_panic. by destruct (panic w); world_norm. }
  destruct Hsignals as (Hc & Hs).
  destruct (tempos captured) as [|t ts] eqn:Htempos.
  { by rewrite run_tick_no_tempo in Hrun. }
  rewrite run_tick_stages in Hrun by first [done | by rewrite Htempos].
  apply bind_Ok in Hrun as (x & w1 & Hcall & Hafter).
  apply handle_call_counts in Hcall as [Hec Hlt].
  rewrite (after_call_keeps_listen_ticks _ _ _ _ _ _ _ Hafter).
  rewrite (after_call_keeps_end_call _ _ _ _ _ _ _ Hafter).
  done.
Qed.

(** X5. Whatever a tick does, when the loop is not stopped and the
    iteration completes: the loop goes on, the end-call and panic signals
    are clear, [last_tick_time] is the tick time, the loop has set neither
    the stop nor the mutate signal, and the count of listen ticks is either
    reset or one more than before and below the limit. *)
Theorem completed_tick
    (trim_note_sequence : NoteSequence -> float -> float -> NoteSequence)
    (a : Args) (midi_hub : MidiHub) (clock : Clock)
    (captured : NoteSequence) (w : World) (continue : bool) (w' : World) :
  stop_signal w = false ->
  run_tick trim_note_sequence a midi_hub clock captured w = Ok continue w' ->
  continue = true /\
  stop_signal w' = false /\ panic w' = false /\ end_call w' = false /\
  (mutate w' = true -> mutate w = true) /\
  last_tick_time w' = tick_time_of captured /\
  (listen_ticks w' = 0 \/
   listen_ticks w' = listen_ticks w + 1 /\
   reaches (listen_ticks w') (_max_listen_ticks a midi_hub) = false).
Proof.
  intros Hstop Hrun.
  destruct (run_tick_leaves _ _ _ _ _ _ _ _ Hstop Hrun)
    as (Hcontinue & Hstopped & Hend_call & Hlisten).
  assert (Hsignals : panic w' = false /\ (mutate w' = true -> mutate w = true)).
  { pose proof Hrun as Hrun'. rewrite run_tick_after_panic in Hrun' by done.
    apply bind_Ok in Hrun' as (x & w1 & Hlogic & [= _ <-]).
    rewrite (tick_logic_keeps_panic _ _ _ _ _ _ _ _ Hlogic).
    pose proof (tick_logic_never_sets_mutate _ _ _ _ _ _ _ _ Hlogic) as Hmu.
    unfold never_setting in Hmu. unfold world_after_panic in *.
    destruct (panic w) eqn:Hp; world_norm; revert Hmu; world_norm; done. }
  destruct Hsignals as (Hpanic & Hmutate).
  assert (Htime : last_tick_time w' = tick_time_of captured).
  { destruct (tempos captured) as [|t ts] eqn:Htempos.
    { by rewrite run_tick_no_tempo in Hrun. }
    rewrite run_tick_stages in Hrun by first [done | by rewrite Htempos].
    apply bind_Ok in Hrun as (x & w1 & _ & Hafter).
    by apply after_call_last_tick_time in Hafter as [_ Hltt]. }
  done.
Qed.

Lemma completed_tick_witness :
  exists w',
    run_tick sample_trim controlled_args one_tick_limit (mkClock 100.1 100.1)
      sample_call (sample_world true true false) = Ok true w' /\
    end_call w' = false /\ panic w' = false /\
    (last_tick_time w' =? 100)%float = true.
Proof.
  eexists. split; [vm_compute; reflexivity|].
  edestruct (completed_tick sample_trim controlled_args one_tick_limit
               (mkClock 100.1 100.1) sample_call
               (sample_world true true false))
    as (_ & _ & Hp & Hec & _ & Hltt & _);
    [reflexivity | vm_compute; reflexivity |].
  split; [exact Hec|]. split; [exact Hp|]. rewrite Hltt. reflexivity.
Defined.

(** ** The loop over the ticks *)

Section loop.
Context (trim_note_sequence : NoteSequence -> float -> float -> NoteSequence).
Context (a : Args).

Lemma iterate_respects (R : World -> World -> Prop) (Q : Tick -> Prop) :
  (forall w, R w w) ->
  (forall w1 w2 w3, R w1 w2 -> R w2 w3 -> R w1 w3) ->
  (forall t w, R w (deliver a t w)) ->
  (forall t, Q t ->
             respects R (run_tick trim_note_sequence a (hub t)
                           (clock_readings t) (captured_now t))) ->
  forall ts, Forall Q ts -> respects R (iterate trim_note_sequence a ts).
Proof.
  intros Hrefl Htrans Hdeliver Htick ts.
  induction ts as [|t ts IH]; intros HQ w x w' Hrun; cbn in Hrun.
  { injection Hrun as _ <-. apply Hrefl. }
  apply Forall_cons in HQ as [Ht Hts].
  unfold bind, modify in Hrun.
  destruct (run_tick _ _ _ _ _ (deliver a t w)) as [continue w1|] eqn:Hrt;
    [|done].
  apply (Htrans _ (deliver a t w)); [apply Hdeliver|].
  pose proof (Htick t Ht _ _ _ Hrt) as H1.
  destruct continue.
  - apply (Htrans _ w1); [exact H1|]. by apply (IH Hts _ x).
  - by injection Hrun as _ <-.
Qed.

Lemma iterate_break t ts w :
  stop_signal (deliver a t w) = true ->
  iterate trim_note_sequence a (t :: ts) w
  = Ok tt (set_heap (heap w ++ [captured_now t]) (deliver a t w)).
Proof.
  intros Hstop. cbn [iterate]. unfold bind at 1. unfold modify at 1.
  unfold bind at 1. by rewrite run_tick_break by exact Hstop.
Qed.

Lemma iterate_stopped ts1 ts2 w w1 :
  stop_signal w = false ->
  iterate trim_note_sequence a ts1 w = Ok tt w1 ->
  stop_signal w1 = true ->
  iterate trim_note_sequence a (ts1 ++ ts2) w = Ok tt w1.
Proof.
  revert w. induction ts1 as [|t ts1 IH]; intros w Hw Hrun Hw1.
  { injection Hrun as <-. congruence. }
  destruct (stop_signal (deliver a t w)) eqn:Hstop.
  { rewrite iterate_break in Hrun by exact Hstop.
    cbn [app]. by rewrite iterate_break by exact Hstop. }
  cbn [iterate app] in *. unfold bind at 1 in Hrun. unfold bind at 1.
  unfold modify at 1 in Hrun. unfold modify at 1.
  unfold bind at 1 in Hrun. unfold bind at 1.
  destruct (run_tick _ _ _ _ _ (deliver a t w)) as [continue w2|] eqn:Hrt;
    [|done].
  destruct (run_tick_leaves _ _ _ _ _ _ _ _ Hstop Hrt) as (-> & Hw2 & _).
  by apply IH.
Qed.
End loop.

(** X6. The stop signal ends the loop.  An iteration that finds it set --
    it was set already, or [stop] was called since the previous one --
    does nothing: the captured sequence the captor yields is the only new
    object, nothing is logged or sent, the panic signal is not handled,
    and the ticks that follow are not looked at.  So the ticks that come
    after a loop that has ended with the stop signal set change
    nothing. *)
Theorem stop_ends_loop
    (trim_note_sequence : NoteSequence -> float -> float -> NoteSequence)
    (a : Args) (ts1 ts2 : list Tick) (w w1 : World) :
  stop_signal w = false ->
  iterate trim_note_sequence a ts1 w = Ok tt w1 ->
  stop_signal w1 = true ->
  iterate trim_note_sequence a (ts1 ++ ts2) w = Ok tt w1 /\
  forall t ts,
    iterate trim_note_sequence a (t :: ts) w1
    = Ok tt (set_heap (heap w1 ++ [captured_now t]) (deliver a t w1)) /\
    trace (deliver a t w1) = trace w1 /\
    panic (deliver a t w1)
    = panic w1 || (panic_received t && bool_decide (panic_signal a <> None)).
Proof.
  intros Hw Hrun Hw1. split; [by apply iterate_stopped|].
  intros t ts. split; [|done].
  apply iterate_break. cbn. by rewrite Hw1.
Qed.

Lemma stop_ends_loop_witness :
  exists w1,
    iterate sample_trim sample_args [call_tick; stop_tick]
      (sample_world false false false) = Ok tt w1 /\
    iterate sample_trim sample_args [call_tick; stop_tick; call_tick]
      (sample_world false false false) = Ok tt w1.
Proof.
  eexists. split; [vm_compute; reflexivity|].
  eapply (stop_ends_loop sample_trim sample_args [call_tick; stop_tick]
            [call_tick] (sample_world false false false));
    [reflexivity | vm_compute; reflexivity | reflexivity].
Defined.

(** ** A whole run *)

Section whole_run.
Context (trim_note_sequence : NoteSequence -> float -> float -> NoteSequence).
Context (a : Args).

Lemma run_tick_no_session_event midi_hub clock captured :
  respects (emitting (fun e => ~ session_event e))
    (run_tick trim_note_sequence a midi_hub clock captured).
Proof.
  respects_with ltac:(apply emitting_refl) ltac:(apply emitting_trans)
    ltac:(first [ by apply emitting_same_trace
                | apply emitting_one; cbn; tauto ])
    ltac:(first [ progress unfold run_tick | unfold_loop ]).
Qed.

Lemma iterate_no_session_event ts :
  respects (emitting (fun e => ~ session_event e))
    (iterate trim_note_sequence a ts).
Proof.
  apply (iterate_respects _ _ _ (fun _ => True)).
  - apply emitting_refl.
  - apply emitting_trans.
  - intros t w. by apply emitting_same_trace.
  - intros t _. apply run_tick_no_session_event.
  - by apply Forall_true.
Qed.

Lemma run_tick_counts_up midi_hub clock captured :
  respects (fun w w' => 0 <= listen_ticks w -> 0 <= listen_ticks w')
    (run_tick trim_note_sequence a midi_hub clock captured).
Proof.
  intros w continue w' Hrun Hw.
  destruct (stop_signal w) eqn:Hstop.
  - rewrite run_tick_break in Hrun by done. by injection Hrun as _ <-.
  - destruct (run_tick_leaves _ _ _ _ _ _ _ _ Hstop Hrun)
      as (_ & _ & _ & [->|[-> _]]); lia.
Qed.

Lemma run_tick_within_limit midi_hub clock captured m k :
  _max_listen_ticks a midi_hub = ticks k ->
  k <= m ->
  respects (fun w w' => listen_ticks_within m w -> listen_ticks_within m w')
    (run_tick trim_note_sequence a midi_hub clock captured).
Proof.
  unfold listen_ticks_within. intros Hmax Hk w continue w' Hrun Hw.
  destruct (stop_signal w) eqn:Hstop.
  - rewrite run_tick_break in Hrun by done. by injection Hrun as _ <-.
  - destruct (run_tick_leaves _ _ _ _ _ _ _ _ Hstop Hrun)
      as (_ & _ & _ & [->|[-> Hbelow]]); [lia|].
    rewrite Hmax in Hbelow. cbn in Hbelow. lia.
Qed.
End whole_run.

(** X7. The calls of a run that returns: capture is started, then the
    metronome when there is no clock signal and a metronome channel, then
    playback of the empty response; the loop starts neither capture nor
    playback again and does not stop the player; the player is stopped
    once, by the last call. *)
Theorem run_opens_and_closes_session
    (trim_note_sequence : NoteSequence -> float -> float -> NoteSequence)
    (a : Args) (self : Self) (midi_hub : MidiHub) (start_time now : float)
    (ts : list Tick) (w' : World) :
  run trim_note_sequence a self midi_hub start_time now ts = Ok tt w' ->
  exists evs,
    trace w'
    = [start_capture (_qpm a midi_hub) start_time]
      ++ (if bool_decide (clock_signal a = None)
             && bool_decide (metronome_channel a <> None)
          then [start_metronome (_qpm a midi_hub) start_time
                  (default 0 (metronome_channel a))]
          else [])
      ++ [start_playback 0%nat] ++ evs ++ [player_stop] /\
    Forall (fun e => ~ session_event e) evs.
Proof.
  unfold run. intros (x & w1 & Hloop & Hstop)%bind_Ok.
  rewrite emit_eq in Hstop. injection Hstop as <-.
  destruct (iterate_no_session_event _ _ _ _ _ _ Hloop) as (evs & Hevs & Hno).
  exists evs. split; [|done]. world_norm. rewrite Hevs.
  cbn [initial_world trace]. by rewrite <- !app_assoc.
Qed.

Lemma run_opens_and_closes_session_witness :
  exists w',
    run sample_trim sample_args (mkSelf sample_args false false false false)
      silent_hub 98 98 [call_tick; stop_tick] = Ok tt w' /\
    last (trace w') = Some player_stop.
Proof.
  eexists. split; [vm_compute; reflexivity|].
  edestruct (run_opens_and_closes_session sample_trim sample_args
               (mkSelf sample_args false false false false)
               silent_hub 98 98 [call_tick; stop_tick])
    as (evs & Hevs & _); [vm_compute; reflexivity|].
  rewrite Hevs. by rewrite !app_assoc, last_snoc.
Defined.

(** X8. The count of listen ticks over a run that returns: it is never
    negative, and it is below [m] when on every tick the control of the
    maximum has a value that is not zero and at most [m]. *)
Theorem listen_ticks_within_limit
    (trim_note_sequence : NoteSequence -> float -> float -> NoteSequence)
    (a : Args) (self : Self) (midi_hub : MidiHub) (start_time now : float)
    (ts : list Tick) (w' : World) (m : Z) :
  run trim_note_sequence a self midi_hub start_time now ts = Ok tt w' ->
  0 <= listen_ticks w' /\
  (0 < m ->
   Forall (fun t => exists k, _max_listen_ticks a (hub t) = ticks k /\ k <= m)
     ts ->
   listen_ticks w' < m).
Proof.
  unfold run. intros (x & w1 & Hloop & Hstop)%bind_Ok.
  rewrite emit_eq in Hstop. injection Hstop as <-. world_norm. split.
  - assert (Hup : respects (fun w w' => 0 <= listen_ticks w ->
                                        0 <= listen_ticks w')
                    (iterate trim_note_sequence a ts)).
    { apply (iterate_respects _ _ _ (fun _ => True));
        [auto | auto | by intros t w
        | intros t _; apply run_tick_counts_up | by apply Forall_true]. }
    apply (Hup _ _ _ Hloop). cbn. lia.
  - intros Hm Hts.
    assert (Hin : respects (fun w w' => listen_ticks_within m w ->
                                        listen_ticks_within m w')
                    (iterate trim_note_sequence a ts)).
    { apply (iterate_respects _ _ _
               (fun t => exists k,
                           _max_listen_ticks a (hub t) = ticks k /\ k <= m));
        [auto | auto | by intros t w
        | intros t (k & Hk & Hle);
          by apply (run_tick_within_limit _ _ _ _ _ _ k)
        | exact Hts]. }
    apply (Hin _ _ _ Hloop). unfold listen_ticks_within. cbn. lia.
Qed.

Lemma listen_ticks_within_limit_witness :
  exists w',
    run sample_trim controlled_args
      (mkSelf controlled_args false false false false)
      one_tick_limit 98 98 [limited_tick] = Ok tt w' /\
    listen_ticks w' < 1.
Proof.
  eexists. split; [vm_compute; reflexivity|].
  eapply (listen_ticks_within_limit sample_trim controlled_args
            (mkSelf controlled_args false false false false)
            one_tick_limit 98 98 [limited_tick] _ 1);
    [vm_compute; reflexivity | lia |].
  repeat constructor. exists 1. split; [reflexivity|lia].
Defined.

(** ** The objects of the store *)

Lemma adjust_sequence_times_cases (h : Heap) (s : ref) (d : float) :
  adjust_sequence_times s d h
  = match (h ++ [NoteSequence_new]) !! s with
    | Some v => Ok (length h) (h ++ [retimed v d])
    | None => Raise ReferenceError
    end.
Proof.
  unfold adjust_sequence_times.
  unfold bind at 1. rewrite alloc_eq.
  unfold bind at 1. unfold CopyFrom. unfold bind at 1. unfold deref at 1.
  destruct ((h ++ [NoteSequence_new]) !! s) as [v|]; [|reflexivity].
  rewrite update_last.
  unfold bind at 1. unfold gets. rewrite lookup_last. cbn [from_option compose].
  unfold bind at 1. unfold for_range.
  destruct v as [ns tt_ tp].
  pose proof (retime_loop h d ns [] tt_ tp) as Hloop.
  cbn [length app notes] in Hloop |- *. rewrite Hloop.
  unfold bind at 1. rewrite update_last. reflexivity.
Qed.

Lemma keeping_objects_refl n w : keeping_objects n w w.
Proof. by intros H. Qed.

Lemma keeping_objects_trans n w1 w2 w3 :
  keeping_objects n w1 w2 -> keeping_objects n w2 w3 -> keeping_objects n w1 w3.
Proof.
  intros H12 H23 H1. destruct (H12 H1) as [H2 E12].
  destruct (H23 H2) as [H3 E23]. split; [done|]. by rewrite E23.
Qed.

Lemma keeping_objects_same_heap n w w' :
  heap w' = heap w -> keeping_objects n w w'.
Proof. intros E H. by rewrite E. Qed.

Lemma keeping_objects_new n w l :
  keeping_objects n w (set_heap (heap w ++ l) w).
Proof.
  intros H. world_norm. rewrite length_app. split; [lia|].
  by apply take_app_le.
Qed.

Lemma alloc_keeps_objects n v : respects (keeping_objects n) (on_heap (alloc v)).
Proof.
  intros w x w'. rewrite on_heap_alloc. intros [= _ <-].
  apply keeping_objects_new.
Qed.

Lemma deref_keeps_objects n r : respects (keeping_objects n) (on_heap (deref r)).
Proof.
  intros w x w' [_ ->]%on_heap_deref_Ok. apply keeping_objects_refl.
Qed.

Lemma on_heap_adjust_Ok w s d r w' :
  on_heap (adjust_sequence_times s d) w = Ok r w' ->
  r = length (heap w) /\ exists v, w' = set_heap (heap w ++ [v]) w.
Proof.
  unfold on_heap. rewrite adjust_sequence_times_cases.
  destruct (_ !! s) as [v|]; [|done]. intros [= <- <-]. eauto.
Qed.

Lemma adjust_keeps_objects n s d :
  respects (keeping_objects n) (on_heap (adjust_sequence_times s d)).
Proof.
  intros w x w' [_ [v ->]]%on_heap_adjust_Ok. apply keeping_objects_new.
Qed.

Lemma update_keeps_objects n r f :
  (n <= r)%nat -> respects (keeping_objects n) (on_heap (update r f)).
Proof.
  intros Hr w x w' Hrun Hn. unfold on_heap, update, bind, deref in Hrun.
  destruct (heap w !! r) as [v|]; [|done].
  unfold modify in Hrun. injection Hrun as _ <-. world_norm.
  rewrite length_insert. split; [done|]. by apply take_insert_ge.
Qed.

(** Lines 425-431: the copy of the call that is moved by one tick is a new
    object, and it is the one whose total time is set. *)
Lemma moved_call_keeps_objects {A} n captured_sequence tick_duration tick_time
    (x : ref -> A) :
  respects (keeping_objects n)
    (bind (on_heap (adjust_sequence_times captured_sequence tick_duration))
       (fun moved =>
          bind (on_heap (update moved (set_total_time tick_time)))
            (fun _ => ret (x moved)))).
Proof.
  intros w y w' (r & w1 & [-> [v ->]]%on_heap_adjust_Ok & Hrest)%bind_Ok Hn.
  apply bind_Ok in Hrest as (z & w2 & Hupdate & [= _ <-]).
  rewrite (on_heap_update _ _ v) in Hupdate by apply lookup_last.
  injection Hupdate as _ <-. world_norm. rewrite insert_last, length_app.
  split; [lia|]. by apply take_app_le.
Qed.

Ltac keeps_objects :=
  repeat first
    [ lazymatch goal with
      | |- respects _ (bind (on_heap (adjust_sequence_times _ _)) _) =>
          apply moved_call_keeps_objects
      | |- respects _ (on_heap (alloc _)) => apply alloc_keeps_objects
      | |- respects _ (on_heap (deref _)) => apply deref_keeps_objects
      | |- respects _ (on_heap (adjust_sequence_times _ _)) =>
          apply adjust_keeps_objects
      | |- respects _ (on_heap (update _ _)) =>
          apply update_keeps_objects; assumption
      end
    | apply respects_bind; [solve [apply keeping_objects_trans]| |intros ?]
    | apply respects_ret; solve [apply keeping_objects_refl]
    | apply respects_gets; solve [apply keeping_objects_refl]
    | apply respects_raise
    | apply respects_lift_exn; solve [apply keeping_objects_refl]
    | apply respects_when; [solve [apply keeping_objects_refl]|]
    | apply respects_modify; intros ?;
      solve [by apply keeping_objects_same_heap]
    | progress unfold emit, assign
    | unfold_loop
    | match goal with
      | |- respects _ (if ?b then _ else _) => destruct b
      | |- respects _ (match ?x with _ => _ end) => destruct x
      | |- respects _ (let _ := _ in _) => cbv zeta
      end ].

Section objects.
Context (trim_note_sequence : NoteSequence -> float -> float -> NoteSequence).
Context (a : Args).

Lemma tick_logic_keeps_objects midi_hub clock n captured_sequence :
  (n <= captured_sequence)%nat ->
  respects (keeping_objects n)
    (tick_logic trim_note_sequence a midi_hub clock captured_sequence).
Proof. intros Hn. keeps_objects. Qed.

Lemma run_tick_keeps_store midi_hub clock captured :
  respects (fun w w' => heap w `prefix_of` heap w')
    (run_tick trim_note_sequence a midi_hub clock captured).
Proof.
  intros w continue w' Hrun. destruct (stop_signal w) eqn:Hstop.
  { rewrite run_tick_break in Hrun by done. injection Hrun as _ <-.
    by apply prefix_app_r. }
  rewrite run_tick_after_panic in Hrun by done.
  apply bind_Ok in Hrun as (x & w1 & Hlogic & [= _ <-]).
  assert (Hheap : exists l, heap (world_after_panic captured w) = heap w ++ l).
  { unfold world_after_panic. destruct (panic w); world_norm; eauto. }
  destruct Hheap as [l Hl].
  destruct (tick_logic_keeps_objects _ _ (length (heap w)) _
              (Nat.le_refl _) _ _ _ Hlogic) as [_ Htake].
  { rewrite Hl, length_app. lia. }
  rewrite Hl, take_app_length in Htake. rewrite <- Htake.
  apply prefix_take.
Qed.
End objects.

(** X9. The loop never changes an object it did not create on the same
    tick: whatever the ticks bring, the store the loop ends with starts
    with the store it began with, so every sequence that existed -- the
    sequences issued to the player, the sequences the captor yielded --
    is found unchanged under its reference.  Responses are re-timed,
    pushed, looped and mutated on copies. *)
Theorem sequences_never_change
    (trim_note_sequence : NoteSequence -> float -> float -> NoteSequence)
    (a : Args) (ts : list Tick) (w w' : World) :
  iterate trim_note_sequence a ts w = Ok tt w' ->
  heap w `prefix_of` heap w' /\
  forall r v, heap w !! r = Some v -> heap w' !! r = Some v.
Proof.
  intros Hrun.
  assert (Hprefix : heap w `prefix_of` heap w').
  { apply (iterate_respects trim_note_sequence a
             (fun w w' => heap w `prefix_of` heap w') (fun _ => True)
             (fun w => reflexivity (heap w))
             (fun w1 w2 w3 => transitivity (y := heap w2) (z := heap w3))
             (fun t w => reflexivity (heap w))
             (fun t _ => run_tick_keeps_store trim_note_sequence a
                           (hub t) (clock_readings t)
                           (captured_now t))
             ts (Forall_true _ ts (fun _ => I)) _ _ _ Hrun). }
  split; [done|]. intros r v Hr. by eapply prefix_lookup_Some.
Qed.

Lemma sequences_never_change_witness :
  exists w',
    iterate sample_trim sample_args [call_tick; stop_tick]
      (world_with_response false false true) = Ok tt w' /\
    heap w' !! 0%nat = Some played_response.
Proof.
  eexists. split; [vm_compute; reflexivity|].
  edestruct (sequences_never_change sample_trim sample_args
               [call_tick; stop_tick] (world_with_response false false true))
    as [_ Hkept]; [vm_compute; reflexivity|].
  by apply Hkept.
Defined.

(** ** The capture window after a response *)

Section window.
Context (trim_note_sequence : NoteSequence -> float -> float -> NoteSequence).
Context (a : Args) (midi_hub : MidiHub) (clock : Clock).

Ltac respond_until_test Hcv Hgen :=
  unfold respond;
  step with _update_state_eq;
  step with gets_eq;
  match goal with
  | |- context [if ?b then _ else _] =>
      match type of b with bool => is_var b; destruct b end
  end;
  cbv beta iota;
  [ unfold bind at 1;
    step with on_heap_adjust by exact Hcv;
    step with on_heap_update by apply lookup_last;
    rewrite insert_last, ret_eq; cbv beta iota; cbn [fst snd]
  | unfold bind at 1; rewrite ret_eq; cbv beta iota; cbn [fst snd] ];
  (step with assign_eq);
  (step with assign_eq);
  [ step with _generate_eq by first [apply lookup_last | exact Hgen]
  | step with _generate_eq by first [exact Hcv | exact Hgen] ];
  (step with assign_eq);
  unfold push_late_response;
  unfold bind at 1; (step with gets_eq).

Ltac respond_after_test :=
  (step with gets_eq);
  (step with gets_eq);
  (step with emit_eq);
  match goal with
  | |- context [allow_overlap ?a] => destruct (allow_overlap a)
  end;
  rewrite assign_eq.

Ltac window_facts :=
  intros [= <-]; world_norm;
  split; [reflexivity|]; split; [reflexivity|];
  eexists _, _; split; [rewrite <- !app_assoc; reflexivity|];
  split;
  [ first [ apply lookup_captured
          | apply lookup_app_l_Some; apply lookup_captured ]
  | repeat constructor; first [intros (? & ? & ? & [=]) | cbn; tauto] ].

Lemma respond_window (captured_sequence : ref) (silent_tick : bool)
    (tick_time tick_duration : float) (w : World) (cv : NoteSequence)
    (generator : SequenceGenerator) (w' : World) :
  heap w !! captured_sequence = Some cv ->
  _sequence_generator a midi_hub = inr generator ->
  let seed :=
    if silent_tick
    then set_total_time tick_time (retimed cv tick_duration) else cv in
  let zero :=
    if silent_tick
    then (captor_start_time w + tick_duration)%float
    else captor_start_time w in
  let num_ticks := control_value midi_hub (response_ticks_control_number a) in
  let duration :=
    if truthy num_ticks
    then (F.of_Z (default 0%Z num_ticks) * tick_duration)%float
    else (tick_time - zero)%float in
  respond trim_note_sequence a midi_hub clock captured_sequence
    silent_tick tick_time tick_duration w = Ok tt w' ->
  response_duration w' = duration /\
  captor_start_time w'
  = (if allow_overlap a then response_start_time w'
     else (response_start_time w' + duration)%float) /\
  exists input evs,
    trace w'
    = trace w ++ state_events a RESPONDING
      ++ [log_generating (details_id generator);
          call_generate (details_id generator) input
            (options_of a midi_hub zero tick_time
               (tick_time + duration)%float)]
      ++ evs /\
    heap w' !! input = Some (retimed seed (- zero)%float) /\
    Forall (fun e => ~ is_call_generate e /\ ~ reports_state e) evs.
Proof.
  intros Hcv Hgen seed zero num_ticks duration.
  destruct w as [h st ec pn mu cst ltt lt rs rst rd tr]. cbn in Hcv.
  subst seed zero duration num_ticks. world_norm.
  destruct (tick_duration / 4 <=? time_at_test clock - tick_time)%float
    eqn:Hlate;
    [destruct (F.floordiv (time_at_push clock - tick_time)%float
                 tick_duration) as [e|quotient] eqn:Hq|].
  - respond_until_test Hcv Hgen.
    all: rewrite Hlate; cbn [when].
    all: unfold bind at 1; rewrite Hq; done.
  - respond_until_test Hcv Hgen.
    all: rewrite Hlate; cbn [when].
    all: unfold bind at 1; rewrite Hq; cbn [lift_exn];
      rewrite ret_eq; cbv beta iota.
    all: (step with assign_eq).
    all: (step with gets_eq).
    all: (step with on_heap_adjust
            by (world_norm; rewrite lookup_offset; reflexivity)).
    all: (step with assign_eq).
    all: rewrite emit_eq; cbv beta iota; world_norm.
    all: respond_after_test.
    all: window_facts.
  - respond_until_test Hcv Hgen.
    all: rewrite Hlate; cbn [when]; rewrite ret_eq; cbv beta iota.
    all: respond_after_test.
    all: window_facts.
Qed.

Lemma after_call_keeps_response_duration tick_time :
  respects (keeping response_duration)
    (after_call trim_note_sequence a midi_hub tick_time).
Proof. unfold after_call. keeps. Qed.

Lemma after_call_keeps_store tick_time :
  respects (fun w w' => heap w `prefix_of` heap w')
    (after_call trim_note_sequence a midi_hub tick_time).
Proof.
  intros w continue w' Hrun.
  assert (Hkeeps : respects (keeping_objects (length (heap w)))
                     (after_call trim_note_sequence a midi_hub tick_time)).
  { unfold after_call. keeps_objects. }
  destruct (Hkeeps _ _ _ Hrun (Nat.le_refl _)) as [_ Htake].
  rewrite (take_ge (heap w)) in Htake by done. rewrite <- Htake.
  apply prefix_take.
Qed.
End window.

(** X10. On a tick on which a call is answered, when the iteration
    completes: the generator selected is called once for the call, on a
    copy of the call moved so that the start of the capture is at 0, with
    the input section from 0 to the tick time and the section to generate
    of [response_duration] after it, both relative to that start, after
    the state RESPONDING has been reported; [response_duration] is the
    number of ticks of the response control times the tick duration, and
    the duration of the call when that control has no value or is at 0;
    the count of listen ticks and the end-call signal are reset; and
    capture starts again at the start of the response when overlap is
    allowed, at its end otherwise. *)
Theorem answered_call_moves_capture_window
    (trim_note_sequence : NoteSequence -> float -> float -> NoteSequence)
    (a : Args) (midi_hub : MidiHub) (clock : Clock)
    (captured : NoteSequence) (w : World) (generator : SequenceGenerator)
    (continue : bool) (w' : World) :
  stop_signal w = false ->
  tempos captured <> [] ->
  notes captured <> [] ->
  call_ends a midi_hub (end_call w) (silent_tick_of captured w)
    (listened_of captured w) = true ->
  _min_listen_ticks a midi_hub <= listened_of captured w ->
  _sequence_generator a midi_hub = inr generator ->
  run_tick trim_note_sequence a midi_hub clock captured w = Ok continue w' ->
  let tick_time := tick_time_of captured in
  let zero := call_start_time captured w in
  let duration := response_duration_of a midi_hub captured w in
  listen_ticks w' = 0 /\ end_call w' = false /\
  response_duration w' = duration /\
  (exists w1,
     respond trim_note_sequence a midi_hub clock
       (captured_ref w) (silent_tick_of captured w)
       tick_time (tick_duration_of captured w)
       (world_before_call a midi_hub captured w) = Ok tt w1 /\
     captor_start_time w'
     = if allow_overlap a then response_start_time w1
       else (response_start_time w1 + duration)%float) /\
  exists input before after,
    trace w'
    = trace w ++ before ++ state_events a RESPONDING
      ++ [log_generating (details_id generator);
          call_generate (details_id generator) input
            (options_of a midi_hub zero tick_time
               (tick_time + duration)%float)]
      ++ after /\
    heap w' !! input
    = Some (retimed (call_sequence a midi_hub captured w) (- zero)%float) /\
    Forall (fun e => ~ reports_state e) before /\
    Forall (fun e => ~ reports_state e) after.
Proof.
  intros Hstop Ht Hnotes Hends Hmin Hgen Hrun tick_time zero duration.
  rewrite run_tick_responds in Hrun by done.
  destruct (respond _ _ _ _ _ _ _ _ _) as [[] w1|] eqn:Hrespond; [|done].
  pose proof (respond_window _ _ _ _ _ _ _ _ _ _ _ _
                (world_before_call_captured a midi_hub captured w)
                Hgen Hrespond) as Hwindow.
  cbv zeta in Hwindow.
  rewrite (world_before_call_keeps a midi_hub captor_start_time) in Hwindow
    by reflexivity.
  destruct Hwindow as (Hduration & Hstart & input & evs & Htrace & Hinput
                       & Hevs).
  rewrite (after_call_keeps_listen_ticks _ _ _ _ _ _ _ Hrun).
  rewrite (after_call_keeps_end_call _ _ _ _ _ _ _ Hrun).
  rewrite (after_call_keeps_response_duration _ _ _ _ _ _ _ Hrun).
  rewrite (after_call_keeps_captor_start_time _ _ _ _ _ _ _ Hrun).
  world_norm.
  split; [done|]. split; [done|]. split; [exact Hduration|].
  split; [by exists w1|].
  destruct (after_call_quiet _ _ _ _ _ _ _ Hrun) as (evs2 & Hafter & Hq2).
  destruct (world_before_call_quiet trim_note_sequence a midi_hub captured w)
    as (before & Hbefore & Hq1).
  exists input, before, (evs ++ evs2). split; [|split; [|split]].
  - rewrite Hafter. world_norm. rewrite Htrace, Hbefore.
    by rewrite <- !app_assoc.
  - eapply prefix_lookup_Some; [exact Hinput|].
    apply (after_call_keeps_store _ _ _ _ _ _ _ Hrun).
  - exact Hq1.
  - apply Forall_app. split; [|exact Hq2].
    eapply Forall_impl; [exact Hevs|]. by intros e [_ ?].
Qed.

Lemma answered_call_moves_capture_window_witness :
  exists w',
    run_tick sample_trim sample_args silent_hub (mkClock 100.1 100.1)
      sample_call (sample_world true false false) = Ok true w' /\
    (response_duration w' =? 2)%float = true /\
    listen_ticks w' = 0.
Proof.
  eexists. split; [vm_compute; reflexivity|].
  edestruct (answered_call_moves_capture_window sample_trim sample_args
               silent_hub (mkClock 100.1 100.1) sample_call
               (sample_world true false false) sample_generator)
    as (Hlisten & _ & Hduration & _);
    [ reflexivity | discriminate | discriminate | vm_compute; reflexivity
    | vm_compute; discriminate | reflexivity | vm_compute; reflexivity |].
  rewrite Hduration. split; [vm_compute; reflexivity|exact Hlisten].
Defined.

(** ** Mutating and looping the response *)

Section mutation.
Context (trim_note_sequence : NoteSequence -> float -> float -> NoteSequence).
Context (a : Args) (midi_hub : MidiHub).

Lemma drop_empty_mutate_eq w response :
  heap w !! response_sequence w = Some response ->
  drop_empty_mutate w
  = Ok tt (if mutate w && bool_decide (notes response = [])
           then set_trace (trace w ++ [log_ignoring_mutate])
                  (set_mutate false w)
           else w).
Proof.
  intros Hr. unfold drop_empty_mutate.
  unfold bind at 1. rewrite gets_eq. cbv beta iota.
  unfold bind at 1. rewrite gets_eq. cbv beta iota.
  unfold bind at 1. rewrite (on_heap_deref _ _ response) by exact Hr.
  destruct (mutate w && bool_decide (notes response = [])); [|reflexivity].
  cbn [when]. unfold bind at 1. by rewrite assign_eq, emit_eq.
Qed.

Lemma after_call_waits tick_time w response :
  heap w !! response_sequence w = Some response ->
  notes response <> [] ->
  (total_time response <=? tick_time)%float = false ->
  after_call trim_note_sequence a midi_hub tick_time w
  = Ok true (set_last_tick_time tick_time w).
Proof.
  intros Hr Hnotes Hplaying. unfold after_call.
  unfold bind at 1. rewrite (drop_empty_mutate_eq _ response) by exact Hr.
  rewrite bool_decide_eq_false_2, andb_false_r by exact Hnotes.
  unfold bind at 1. unfold loop_or_mutate.
  unfold bind at 1. rewrite gets_eq. cbv beta iota.
  unfold bind at 1. rewrite (on_heap_deref _ _ response) by exact Hr.
  unfold bind at 1. rewrite gets_eq. cbv beta iota.
  rewrite Hplaying. cbn [andb when]. rewrite ret_eq.
  unfold bind at 1. by rewrite assign_eq, ret_eq.
Qed.
Lemma after_call_mutates tick_time w response generator :
  mutate w = true ->
  heap w !! response_sequence w = Some response ->
  notes response <> [] ->
  (total_time response <=? tick_time)%float = true ->
  _sequence_generator a midi_hub = inr generator ->
  let start := response_start_time w in
  let duration := response_duration w in
  let new_start_time := (start + duration)%float in
  let new_end_time := (new_start_time + duration)%float in
  exists w',
    after_call trim_note_sequence a midi_hub tick_time w = Ok true w' /\
    mutate w' = false /\
    response_start_time w' = tick_time /\
    response_duration w' = duration /\
    heap w' !! response_sequence w'
    = Some (retimed
              (generated_response trim_note_sequence a midi_hub generator
                 response start new_start_time new_end_time)
              (tick_time - new_start_time)%float) /\
    heap w' !! response_sequence w = Some response /\
    response_sequence w' <> response_sequence w /\
    exists seed,
      trace w'
      = trace w
        ++ [log_generating (details_id generator);
            call_generate (details_id generator) seed
              (options_of a midi_hub start new_start_time new_end_time);
            update_sequence (response_sequence w') (Some tick_time)] /\
      heap w' !! seed = Some (retimed response (- start)%float).
Proof.
  intros Hmu Hr Hnotes Hended Hgen. cbv zeta. unfold after_call.
  unfold bind at 1. rewrite (drop_empty_mutate_eq _ response) by exact Hr.
  rewrite bool_decide_eq_false_2, andb_false_r by exact Hnotes.
  destruct w as [h st ec pn mu cst ltt lt rs rst rd tr].
  cbn in Hmu, Hr. subst mu. world_norm.
  unfold bind at 1. unfold loop_or_mutate.
  step with gets_eq.
  step with on_heap_deref by exact Hr.
  step with gets_eq.
  rewrite Hended, orb_true_r. cbn [andb when].
  unfold bind at 1.
  step with gets_eq.
  step with gets_eq.
  step with _generate_eq by first [exact Hr | exact Hgen].
  step with assign_eq.
  step with assign_eq.
  rewrite assign_eq. cbv beta iota. world_norm.
  step with gets_eq.
  step with gets_eq.
  step with on_heap_adjust by (world_norm; rewrite lookup_offset; reflexivity).
  step with assign_eq.
  step with assign_eq.
  rewrite emit_eq. cbv beta iota. world_norm.
  unfold bind at 1. rewrite assign_eq, ret_eq. world_norm.
  eexists. split; [reflexivity|]. world_norm.
  split; [done|]. split; [done|]. split; [done|].
  split; [apply lookup_last|].
  assert (Hlt : (rs < length h)%nat) by by eapply lookup_lt_Some.
  split; [by do 2 apply lookup_app_l_Some|].
  split; [rewrite !length_app; cbn; lia|].
  eexists. split; [by rewrite <- !app_assoc|].
  apply lookup_app_l_Some, lookup_captured.
Qed.
End mutation.

(** X11. While a response with notes is still playing at the tick time,
    lines 479-503 do nothing but record the tick time: a mutation that was
    asked for stays pending, no generator is called, and the response is
    not looped even when looping is on. *)
Theorem pending_mutation_waits
    (trim_note_sequence : NoteSequence -> float -> float -> NoteSequence)
    (a : Args) (midi_hub : MidiHub) (tick_time : float)
    (w : World) (response : NoteSequence) :
  heap w !! response_sequence w = Some response ->
  notes response <> [] ->
  (total_time response <=? tick_time)%float = false ->
  exists w',
    after_call trim_note_sequence a midi_hub tick_time w = Ok true w' /\
    w' = set_last_tick_time tick_time w /\
    mutate w' = mutate w /\ trace w' = trace w /\ heap w' = heap w /\
    response_sequence w' = response_sequence w /\
    response_start_time w' = response_start_time w.
Proof.
  intros Hr Hnotes Hplaying. eexists.
  split; [by apply (after_call_waits _ _ _ _ _ response)|]. done.
Qed.

Lemma pending_mutation_waits_witness :
  exists w',
    after_call sample_trim controlled_args loop_hub 100 world_while_playing
    = Ok true w' /\
    mutate w' = true /\ trace w' = [].
Proof.
  destruct (pending_mutation_waits sample_trim controlled_args loop_hub 100
              world_while_playing playing_response)
    as (w' & Hrun & _ & Hmutate & Htrace & _);
    [reflexivity | discriminate | reflexivity |].
  exists w'. split; [exact Hrun|]. split; [exact Hmutate | exact Htrace].
Defined.

(** X12. A mutation that is pending when the response, which has notes,
    has ended by the tick time: the generator selected is called once,
    seeded with a copy of the response moved so that its start is at 0, to
    generate the section of [response_duration] that follows the
    response; the result, moved back and then re-aligned from the end of
    the old response to the tick time, is a new object that becomes the
    response and is issued to the player at the tick time; the mutate
    signal is cleared, and the old response is left as it was. *)
Theorem mutation_replaces_response
    (trim_note_sequence : NoteSequence -> float -> float -> NoteSequence)
    (a : Args) (midi_hub : MidiHub) (tick_time : float)
    (w : World) (response : NoteSequence) (generator : SequenceGenerator) :
  mutate w = true ->
  heap w !! response_sequence w = Some response ->
  notes response <> [] ->
  (total_time response <=? tick_time)%float = true ->
  _sequence_generator a midi_hub = inr generator ->
  let start := response_start_time w in
  let duration := response_duration w in
  let new_start_time := (start + duration)%float in
  let new_end_time := (new_start_time + duration)%float in
  exists w',
    after_call trim_note_sequence a midi_hub tick_time w = Ok true w' /\
    mutate w' = false /\
    response_start_time w' = tick_time /\
    response_duration w' = duration /\
    heap w' !! response_sequence w'
    = Some (retimed
              (generated_response trim_note_sequence a midi_hub generator
                 response start new_start_time new_end_time)
              (tick_time - new_start_time)%float) /\
    heap w' !! response_sequence w = Some response /\
    response_sequence w' <> response_sequence w /\
    exists seed,
      trace w'
      = trace w
        ++ [log_generating (details_id generator);
            call_generate (details_id generator) seed
              (options_of a midi_hub start new_start_time new_end_time);
            update_sequence (response_sequence w') (Some tick_time)] /\
      heap w' !! seed = Some (retimed response (- start)%float).
Proof. apply after_call_mutates. Qed.

Lemma mutation_replaces_response_witness :
  exists w',
    after_call sample_trim sample_args silent_hub 100
      (world_with_response false false true) = Ok true w' /\
    mutate w' = false /\
    (length <$> (notes <$> heap w' !! response_sequence w')) = Some 1%nat.
Proof.
  destruct (mutation_replaces_response sample_trim sample_args silent_hub 100
              (world_with_response false false true) played_response
              sample_generator)
    as (w' & Hrun & Hmutate & _ & _ & Hresponse & _);
    [reflexivity | reflexivity | discriminate | reflexivity | reflexivity |].
  exists w'. split; [exact Hrun|]. split; [exact Hmutate|].
  rewrite Hresponse. vm_compute. reflexivity.
Defined.

(** X13. Without a pending mutation, lines 479-503 call no generator.
    When looping is on -- the loop control has a number other than 0 and
    is at 127 -- and the response has ended by the tick time, a copy of
    the response moved by the time from its start to the tick time becomes
    the response and is issued to the player at the tick time, the old one
    being left as it was; otherwise only the tick time is recorded. *)
Theorem response_looped
    (trim_note_sequence : NoteSequence -> float -> float -> NoteSequence)
    (a : Args) (midi_hub : MidiHub) (tick_time : float)
    (w : World) (response : NoteSequence) :
  mutate w = false ->
  heap w !! response_sequence w = Some response ->
  (looping a midi_hub tick_time response = true <->
   (total_time response <=? tick_time)%float = true /\
   exists n, loop_control_number a = Some n /\ n <> 0 /\
             control_value midi_hub (Some n) = Some 127) /\
  exists w',
    after_call trim_note_sequence a midi_hub tick_time w = Ok true w' /\
    if looping a midi_hub tick_time response
    then response_sequence w' = length (heap w) /\
         heap w' = heap w ++ [retimed response
                                (tick_time - response_start_time w)%float] /\
         response_start_time w' = tick_time /\
         trace w'
         = trace w ++ [update_sequence (response_sequence w')
                         (Some tick_time)]
    else w' = set_last_tick_time tick_time w.
Proof.
  intros Hmu Hr. split.
  - unfold looping, _should_loop. rewrite andb_true_iff.
    destruct (loop_control_number a) as [n|].
    + destruct (n =? 0) eqn:Hn.
      * apply Z.eqb_eq in Hn. split; [by intros [_ ?]|].
        intros [_ (m & [= <-] & ? & _)]. done.
      * apply Z.eqb_neq in Hn. rewrite bool_decide_eq_true. split.
        -- intros [? ?]. eauto.
        -- intros [? (m & [= <-] & _ & ?)]. done.
    + split; [by intros [_ ?]|]. by intros [_ (m & ? & _)].
  - eexists. split.
    { apply (after_call_eq _ _ _ _ _ response); [exact Hr | by left]. }
    unfold world_after_call. rewrite Hmu. cbn [andb].
    by destruct (looping a midi_hub tick_time response).
Qed.

Lemma response_looped_witness :
  exists w',
    after_call sample_trim controlled_args loop_hub 100
      (world_with_response false false false) = Ok true w' /\
    response_sequence w' = 1%nat /\
    (total_time <$> heap w' !! response_sequence w') = Some 104%float.
Proof.
  destruct (response_looped sample_trim controlled_args loop_hub 100
              (world_with_response false false false) played_response)
    as (_ & w' & Hrun & Hlooped); [reflexivity | reflexivity |].
  exists w'. split; [exact Hrun|].
  change (looping controlled_args loop_hub 100 played_response) with true
    in Hlooped.
  destruct Hlooped as (Hresponse & Hheap & _).
  split; [exact Hresponse|]. rewrite Hheap, Hresponse. reflexivity.
Defined.

(** ** The start of an iteration *)

Section preamble.
Context (trim_note_sequence : NoteSequence -> float -> float -> NoteSequence).
Context (a : Args) (midi_hub : MidiHub) (clock : Clock).

Lemma world_before_call_trace captured w :
  trace (world_before_call a midi_hub captured w)
  = trace w
    ++ (if panic w then [update_sequence (S (length (heap w))) None] else [])
    ++ (if runs_metronome a
        then [start_metronome (_qpm a midi_hub) (tick_time_of captured)
                (default 0 (metronome_channel a))]
        else []).
Proof.
  unfold world_before_call, world_after_panic, runs_metronome.
  destruct (panic w), (bool_decide (clock_signal a = None)
                       && bool_decide (metronome_channel a <> None));
    world_norm; by rewrite <- ?app_assoc, ?app_nil_r.
Qed.

Lemma handle_call_no_preamble captured_sequence silent_tick tick_time
    tick_duration :
  respects (emitting (fun e => ~ preamble_event e))
    (handle_call trim_note_sequence a midi_hub clock
       captured_sequence silent_tick tick_time tick_duration).
Proof.
  respects_with ltac:(apply emitting_refl) ltac:(apply emitting_trans)
    ltac:(first [ by apply emitting_same_trace
                | apply emitting_one; cbn; tauto ])
    ltac:(unfold_loop).
Qed.

Lemma after_call_no_preamble tick_time :
  respects (emitting (fun e => ~ preamble_event e))
    (after_call trim_note_sequence a midi_hub tick_time).
Proof.
  unfold after_call.
  respects_with ltac:(apply emitting_refl) ltac:(apply emitting_trans)
    ltac:(first [ by apply emitting_same_trace
                | apply emitting_one; cbn; tauto ])
    ltac:(unfold_loop).
Qed.

Lemma handle_call_keeps_objects n captured_sequence silent_tick tick_time
    tick_duration :
  respects (keeping_objects n)
    (handle_call trim_note_sequence a midi_hub clock
       captured_sequence silent_tick tick_time tick_duration).
Proof. keeps_objects. Qed.

Lemma run_tick_preamble captured w continue w' :
  stop_signal w = false ->
  run_tick trim_note_sequence a midi_hub clock captured w = Ok continue w' ->
  heap w' !! captured_ref w = Some (captured_with_qpm a midi_hub captured) /\
  exists rest,
    trace w'
    = trace w
      ++ (if panic w then [update_sequence (S (length (heap w))) None]
          else [])
      ++ (if runs_metronome a
          then [start_metronome (_qpm a midi_hub) (tick_time_of captured)
                  (default 0 (metronome_channel a))]
          else [])
      ++ rest /\
    Forall (fun e => ~ preamble_event e) rest.
Proof.
  intros Hstop Hrun.
  destruct (tempos captured) as [|t ts] eqn:Htempos.
  { by rewrite run_tick_no_tempo in Hrun. }
  rewrite run_tick_stages in Hrun by first [done | by rewrite Htempos].
  apply bind_Ok in Hrun as (x & w1 & Hcall & Hafter).
  set (wb := world_before_call a midi_hub captured w) in *.
  split.
  - pose proof (handle_call_keeps_objects (length (heap wb)) _ _ _ _ _ _ _
                  Hcall (Nat.le_refl _)) as [Hlen Htake].
    rewrite (take_ge (heap wb)) in Htake by done.
    apply (prefix_lookup_Some (heap w1)).
    + apply (prefix_lookup_Some (heap wb));
        [apply world_before_call_captured|].
      rewrite <- Htake. apply prefix_take.
    + apply (after_call_keeps_store _ _ _ _ _ _ _ Hafter).
  - destruct (handle_call_no_preamble _ _ _ _ _ _ _ Hcall)
      as (evs1 & Hevs1 & Hno1).
    destruct (after_call_no_preamble _ _ _ _ Hafter) as (evs2 & Hevs2 & Hno2).
    exists (evs1 ++ evs2). split; [|by apply Forall_app].
    rewrite Hevs2, Hevs1. subst wb. rewrite world_before_call_trace.
    by rewrite <- !app_assoc.
Qed.
End preamble.

(** X14. The start of every iteration that is not stopped, lines 381-392.
    A captured sequence without a tempo makes the iteration raise
    IndexError.  When the iteration completes, the first tempo of the
    captured sequence has been set to the current tempo, in place, and the
    sequence is otherwise as the captor yielded it; and the calls of the
    iteration start with the empty response issued without a start time,
    exactly when the panic signal was set, followed by the metronome
    restarted at the tick time with the current tempo, exactly when there
    is no clock signal and there is a metronome channel: no other call of
    the iteration is one of these. *)
Theorem iteration_starts_with_tempo
    (trim_note_sequence : NoteSequence -> float -> float -> NoteSequence)
    (a : Args) (midi_hub : MidiHub) (clock : Clock)
    (captured : NoteSequence) (w : World) :
  stop_signal w = false ->
  (tempos captured = [] ->
   run_tick trim_note_sequence a midi_hub clock captured w
   = Raise IndexError) /\
  forall continue w',
    run_tick trim_note_sequence a midi_hub clock captured w = Ok continue w' ->
    heap w' !! captured_ref w
    = Some (mkNoteSequence (notes captured) (total_time captured)
              (mkTempo (_qpm a midi_hub) :: tail (tempos captured))) /\
    exists rest,
      trace w'
      = trace w
        ++ (if panic w then [update_sequence (S (length (heap w))) None]
            else [])
        ++ (if runs_metronome a
            then [start_metronome (_qpm a midi_hub) (tick_time_of captured)
                    (default 0 (metronome_channel a))]
            else [])
        ++ rest /\
      Forall (fun e => ~ preamble_event e) rest.
Proof.
  intros Hstop. split; [by apply run_tick_no_tempo|].
  intros continue w' Hrun.
  by apply (run_tick_preamble _ _ _ _ _ _ _ _ Hstop Hrun).
Qed.

Lemma iteration_starts_with_tempo_witness :
  exists w',
    run_tick sample_trim metronome_args (hub_with 5 40) (mkClock 100.1 100.1)
      sample_call (sample_world false true false) = Ok true w' /\
    (tempos <$> heap w' !! 1%nat) = Some [mkTempo 100] /\
    trace w' !! 1%nat = Some (start_metronome 100 100 9).
Proof.
  eexists. split; [vm_compute; reflexivity|].
  destruct (iteration_starts_with_tempo sample_trim metronome_args
              (hub_with 5 40) (mkClock 100.1 100.1) sample_call
              (sample_world false true false) eq_refl) as [_ Hcompleted].
  edestruct Hcompleted as (Hcaptured & rest & Htrace & _);
    [vm_compute; reflexivity|].
  split; [exact (f_equal (fmap tempos) Hcaptured)|].
  rewrite Htrace. reflexivity.
Defined.

(** ** The state reported on a tick *)

Section reports.
Context (trim_note_sequence : NoteSequence -> float -> float -> NoteSequence).
Context (a : Args) (midi_hub : MidiHub) (clock : Clock).

Ltac quiet :=
  respects_with ltac:(apply emitting_refl) ltac:(apply emitting_trans)
    ltac:(first [ by apply emitting_same_trace
                | apply emitting_one; cbn; tauto ])
    ltac:(unfold_loop).

Lemma respond_reports_once captured_sequence silent_tick tick_time
    tick_duration w x w' :
  respond trim_note_sequence a midi_hub clock captured_sequence silent_tick
    tick_time tick_duration w = Ok x w' ->
  exists after,
    trace w' = (trace w ++ state_events a RESPONDING) ++ after /\
    Forall (fun e => ~ reports_state e) after.
Proof.
  unfold respond. intros (y & w1 & Hstate & Hrest)%bind_Ok.
  rewrite _update_state_eq in Hstate. injection Hstate as _ <-.
  match type of Hrest with
  | ?m _ = _ =>
      assert (Hquiet : respects (emitting (fun e => ~ reports_state e)) m)
        by quiet
  end.
  apply (Hquiet _ _ _ Hrest).
Qed.

Lemma keep_idling_reports tick_time w x w' :
  keep_idling a tick_time w = Ok x w' ->
  trace w' = trace w \/ trace w' = trace w ++ state_events a IDLE.
Proof.
  destruct (heap w !! response_sequence w) as [response|] eqn:Hr.
  - rewrite (keep_idling_eq _ _ _ response) by exact Hr.
    intros [= _ <-].
    destruct (world_after_idle_fields a tick_time response w)
      as (_ & _ & _ & _ & _ & _ & ->).
    destruct (_ <=? _)%float; rewrite ?app_nil_r; auto.
  - unfold keep_idling, bind, gets, on_heap, deref. by rewrite Hr.
Qed.

(** The state a tick reports, from the captured sequence and the world
    at the branch of line 404: none when the call was too short. *)
Lemma handle_call_reports captured w x w1 :
  handle_call trim_note_sequence a midi_hub clock
    (captured_ref w) (silent_tick_of captured w)
    (tick_time_of captured) (tick_duration_of captured w)
    (world_before_call a midi_hub captured w) = Ok x w1 ->
  exists reported after,
    trace w1
    = trace (world_before_call a midi_hub captured w) ++ reported ++ after /\
    Forall (fun e => ~ reports_state e) after /\
    (reported = [] \/
     exists state,
       reported = state_events a state /\
       (state = IDLE <-> notes captured = []) /\
       (state = LISTENING ->
        call_ends a midi_hub (end_call w) (silent_tick_of captured w)
          (listened_of captured w) = false) /\
       (state = RESPONDING ->
        call_ends a midi_hub (end_call w) (silent_tick_of captured w)
          (listened_of captured w) = true /\
        _min_listen_ticks a midi_hub <= listened_of captured w)).
Proof.
  rewrite (handle_call_cases _ _ _ _ _ _ _ _ _
             (captured_with_qpm a midi_hub captured))
    by apply world_before_call_captured.
  cbn [captured_with_qpm set_tempos notes].
  destruct (notes captured) as [|n ns] eqn:Hnotes.
  { intros [->| ->]%keep_idling_reports.
    - exists [], []. rewrite !app_nil_r. auto.
    - exists (state_events a IDLE), []. rewrite app_nil_r.
      split; [done|]. split; [done|]. right. exists IDLE. done. }
  rewrite world_before_call_listen_ticks.
  rewrite (world_before_call_keeps a midi_hub end_call) by reflexivity.
  destruct (call_ends _ _ _ _ _) eqn:Hends.
  2:{ rewrite _update_state_eq. intros [= _ <-]. world_norm.
      exists (state_events a LISTENING), []. rewrite app_nil_r.
      split; [done|]. split; [done|]. right. exists LISTENING. done. }
  destruct (Z.lt_ge_cases (listened_of captured w)
              (_min_listen_ticks a midi_hub)) as [Hshort|Hlong].
  - rewrite end_of_call_short
      by (by rewrite world_before_call_listen_ticks).
    intros [= _ <-]. unfold world_after_short_call. world_norm.
    eexists [], [_]. split; [reflexivity|].
    split; [repeat constructor; cbn; tauto|]. by left.
  - rewrite end_of_call_responds
      by (by rewrite world_before_call_listen_ticks).
    intros (y & w2 & (after & Htrace & Hquiet)%respond_reports_once
            & Hreset)%bind_Ok.
    unfold bind in Hreset. rewrite !assign_eq in Hreset.
    injection Hreset as _ <-. world_norm.
    exists (state_events a RESPONDING), after.
    split; [by rewrite Htrace, <- app_assoc|]. split; [done|].
    right. exists RESPONDING. done.
Qed.
End reports.

(** X15. Every iteration that is not stopped and completes reports at
    most one state (the control change, when the state control has a
    number, and the log line): IDLE only when nothing was captured,
    LISTENING only when the call goes on, RESPONDING only when the call
    ends after at least the minimum of listen ticks; nothing else of the
    iteration is a state report. *)
Theorem one_state_report_per_tick
    (trim_note_sequence : NoteSequence -> float -> float -> NoteSequence)
    (a : Args) (midi_hub : MidiHub) (clock : Clock)
    (captured : NoteSequence) (w : World) (continue : bool) (w' : World) :
  stop_signal w = false ->
  run_tick trim_note_sequence a midi_hub clock captured w = Ok continue w' ->
  exists before reported after,
    trace w' = trace w ++ before ++ reported ++ after /\
    Forall (fun e => ~ reports_state e) before /\
    Forall (fun e => ~ reports_state e) after /\
    (reported = [] \/
     exists state,
       reported = state_events a state /\
       (state = IDLE <-> notes captured = []) /\
       (state = LISTENING ->
        call_ends a midi_hub (end_call w) (silent_tick_of captured w)
          (listened_of captured w) = false) /\
       (state = RESPONDING ->
        call_ends a midi_hub (end_call w) (silent_tick_of captured w)
          (listened_of captured w) = true /\
        _min_listen_ticks a midi_hub <= listened_of captured w)).
Proof.
  intros Hstop Hrun.
  destruct (tempos captured) as [|t ts] eqn:Htempos.
  { by rewrite run_tick_no_tempo in Hrun. }
  rewrite run_tick_stages in Hrun by first [done | by rewrite Htempos].
  apply bind_Ok in Hrun as (x & w1 & Hcall & Hafter).
  apply handle_call_reports in Hcall
    as (reported & after1 & Htrace1 & Hquiet1 & Hstate).
  destruct (after_call_quiet _ _ _ _ _ _ _ Hafter)
    as (after2 & Htrace2 & Hquiet2).
  destruct (world_before_call_quiet trim_note_sequence a midi_hub captured w)
    as (before & Hbefore & Hquiet0).
  exists before, reported, (after1 ++ after2).
  split; [|split; [done|split; [by apply Forall_app|done]]].
  rewrite Htrace2, Htrace1, Hbefore. by rewrite <- !app_assoc.
Qed.

Lemma one_state_report_per_tick_witness :
  exists w' before reported after,
    run_tick sample_trim sample_args silent_hub (mkClock 100.1 100.1)
      sample_call (sample_world true false false) = Ok true w' /\
    trace w' = [] ++ before ++ reported ++ after /\
    Forall (fun e => ~ reports_state e) after.
Proof.
  eexists.
  edestruct (one_state_report_per_tick sample_trim sample_args silent_hub
               (mkClock 100.1 100.1) sample_call
               (sample_world true false false))
    as (before & reported & after & Htrace & _ & Hafter & _);
    [reflexivity | vm_compute; reflexivity |].
  exists before, reported, after.
  split; [vm_compute; reflexivity|]. split; [exact Htrace | exact Hafter].
Defined.

(** ** Calls are discarded for a minimum only *)

Section minimum.
Context (trim_note_sequence : NoteSequence -> float -> float -> NoteSequence).
Context (a : Args).

Ltac long_enough :=
  respects_with ltac:(apply emitting_refl) ltac:(apply emitting_trans)
    ltac:(first [ by apply emitting_same_trace
                | apply emitting_one; cbn; tauto ])
    ltac:(unfold_loop).

Lemma respond_not_too_short midi_hub clock captured_sequence silent_tick
    tick_time tick_duration :
  respects (emitting (fun e => ~ is_too_short e))
    (respond trim_note_sequence a midi_hub clock captured_sequence
       silent_tick tick_time tick_duration).
Proof. long_enough. Qed.

Lemma keep_idling_not_too_short tick_time :
  respects (emitting (fun e => ~ is_too_short e)) (keep_idling a tick_time).
Proof. long_enough. Qed.

Lemma handle_call_not_too_short midi_hub clock captured_sequence silent_tick
    tick_time tick_duration w x w' :
  _min_listen_ticks a midi_hub <= listen_ticks w ->
  handle_call trim_note_sequence a midi_hub clock captured_sequence
    silent_tick tick_time tick_duration w = Ok x w' ->
  emitting (fun e => ~ is_too_short e) w w'.
Proof.
  intros Hmin.
  destruct (heap w !! captured_sequence) as [cv|] eqn:Hcv.
  2:{ unfold handle_call, bind, on_heap, deref. by rewrite Hcv. }
  rewrite (handle_call_cases _ _ _ _ _ _ _ _ _ cv) by exact Hcv.
  destruct (notes cv).
  { apply keep_idling_not_too_short. }
  destruct (call_ends _ _ _ _ _).
  - rewrite end_of_call_responds by exact Hmin.
    intros (y & w1 & Hrespond%respond_not_too_short & Hreset)%bind_Ok.
    unfold bind in Hreset. rewrite !assign_eq in Hreset.
    injection Hreset as _ <-.
    destruct Hrespond as (evs & ? & ?). by exists evs.
  - rewrite _update_state_eq. intros [= _ <-].
    exists (state_events a LISTENING). split; [done|].
    unfold state_events.
    destruct (state_control_number a); repeat constructor; cbn; tauto.
Qed.

Lemma run_tick_not_too_short midi_hub clock captured :
  _min_listen_ticks a midi_hub <= 0 ->
  respects (fun w w' => 0 <= listen_ticks w ->
                        0 <= listen_ticks w' /\
                        emitting (fun e => ~ is_too_short e) w w')
    (run_tick trim_note_sequence a midi_hub clock captured).
Proof.
  intros Hmin w continue w' Hrun Hw.
  split; [by apply (run_tick_counts_up _ _ _ _ _ _ _ _ Hrun)|].
  destruct (stop_signal w) eqn:Hstop.
  { rewrite run_tick_break in Hrun by done. injection Hrun as _ <-.
    by apply emitting_same_trace. }
  destruct (tempos captured) as [|t ts] eqn:Htempos.
  { by rewrite run_tick_no_tempo in Hrun. }
  rewrite run_tick_stages in Hrun by first [done | by rewrite Htempos].
  apply bind_Ok in Hrun as (x & w1 & Hcall & Hafter).
  apply handle_call_not_too_short in Hcall.
  2:{ rewrite world_before_call_listen_ticks. unfold listened_of.
      destruct (silent_tick_of captured w); lia. }
  eapply emitting_trans; [|eapply emitting_trans; [exact Hcall|]].
  - apply world_before_call_emits; intros; cbn; tauto.
  - eapply (after_call_emits _ _ _ (fun e => ~ is_too_short e));
      [cbn; tauto | cbn; tauto | cbn; tauto | cbn; tauto | exact Hafter].
Qed.
End minimum.

(** X16. A call is discarded as too short for a minimum of listen ticks
    only: over a run that returns, on every tick of which the minimum is
    0 (the control of the minimum has no value) or less, no call is
    reported as too short. *)
Theorem no_minimum_no_call_discarded
    (trim_note_sequence : NoteSequence -> float -> float -> NoteSequence)
    (a : Args) (self : Self) (midi_hub : MidiHub) (start_time now : float)
    (ts : list Tick) (w' : World) :
  Forall (fun t => _min_listen_ticks a (hub t) <= 0) ts ->
  run trim_note_sequence a self midi_hub start_time now ts = Ok tt w' ->
  Forall (fun e => ~ is_too_short e) (trace w').
Proof.
  intros Hts. unfold run. intros (x & w1 & Hloop & Hstop)%bind_Ok.
  rewrite emit_eq in Hstop. injection Hstop as <-. world_norm.
  assert (Hrun : respects (fun w w' => 0 <= listen_ticks w ->
                             0 <= listen_ticks w' /\
                             emitting (fun e => ~ is_too_short e) w w')
                   (iterate trim_note_sequence a ts)).
  { apply (iterate_respects _ _ _
             (fun t => _min_listen_ticks a (hub t) <= 0)).
    - intros w H. split; [exact H|apply emitting_refl].
    - intros w2 w3 w4 H23 H34 H2. destruct (H23 H2) as [H3 E23].
      destruct (H34 H3) as [H4 E34]. split; [done|].
      by eapply emitting_trans.
    - intros t w H. split; [exact H|]. by apply emitting_same_trace.
    - intros t Ht. by apply run_tick_not_too_short.
    - exact Hts. }
  assert (Hinit : 0 <= listen_ticks
                         (initial_world a self midi_hub start_time now))
    by (cbn; lia).
  destruct (Hrun _ _ _ Hloop Hinit) as [_ (evs & -> & Hevs)].
  rewrite !Forall_app. split; [split; [|done]|].
  - cbn [initial_world trace].
    destruct (bool_decide _ && bool_decide _); cbn [app];
      repeat (apply Forall_cons; split; [cbn; tauto|]); try apply Forall_nil; done.
  - apply Forall_cons. split; [cbn; tauto|by apply Forall_nil].
Qed.

Lemma no_minimum_no_call_discarded_witness :
  exists w',
    run sample_trim sample_args (mkSelf sample_args false false false false)
      silent_hub 98 98 [call_tick; stop_tick] = Ok tt w' /\
    Forall (fun e => ~ is_too_short e) (trace w').
Proof.
  eexists. split; [vm_compute; reflexivity|].
  eapply (no_minimum_no_call_discarded sample_trim sample_args
            (mkSelf sample_args false false false false)
            silent_hub 98 98 [call_tick; stop_tick]);
    [repeat constructor; vm_compute; discriminate | vm_compute; reflexivity].
Defined.

(** ** The lateness of a response *)

(** C1, amended.  Only the response to a call is tested for lateness.  On
    a tick on which a call is answered, let [t] be the time elapsed since
    the tick when the response has been generated.  If
    [t < tick_duration / 4] the response is issued as generated, scheduled
    at the tick time.  Otherwise the clock is read again, and with [q] the
    floor division of the time then elapsed by [tick_duration], the
    response is pushed by [q + 1] ticks: the sequence issued is the
    generated one with every note start, note end and the total time moved
    by [(q + 1) * tick_duration], and it is scheduled that much after the
    tick time.  A tick duration of zero makes the floor division raise.
    A response generated by mutating the previous one, at the end of any
    iteration, is not tested: whatever the clock reads, it is issued
    re-aligned to the tick time and scheduled at the tick time. *)
Theorem late_response_pushed
    (trim_note_sequence : NoteSequence -> float -> float -> NoteSequence)
    (a : Args) (midi_hub : MidiHub) (clock : Clock)
    (captured : NoteSequence) (w : World) (generator : SequenceGenerator) :
  stop_signal w = false ->
  tempos captured <> [] ->
  _sequence_generator a midi_hub = inr generator ->
  let tick_time := tick_time_of captured in
  let tick_duration := tick_duration_of captured w in
  let generated :=
    response_of trim_note_sequence a midi_hub captured w generator in
  (notes captured <> [] ->
   call_ends a midi_hub (end_call w) (silent_tick_of captured w)
     (listened_of captured w) = true ->
   _min_listen_ticks a midi_hub <= listened_of captured w ->
   (late clock tick_time tick_duration = false ->
    response_issued trim_note_sequence a midi_hub clock captured w
      generated tick_time) /\
   (forall q,
      late clock tick_time tick_duration = true ->
      F.floordiv (time_at_push clock - tick_time)%float tick_duration
      = inr q ->
      response_issued trim_note_sequence a midi_hub clock captured w
        (retimed generated ((q + 1) * tick_duration)%float)
        (tick_time + (q + 1) * tick_duration)%float) /\
   (forall e,
      late clock tick_time tick_duration = true ->
      F.floordiv (time_at_push clock - tick_time)%float tick_duration
      = inl e ->
      run_tick trim_note_sequence a midi_hub clock captured w = Raise e)) /\
  (forall w1 response,
     handle_call trim_note_sequence a midi_hub clock
       (captured_ref w) (silent_tick_of captured w) tick_time tick_duration
       (world_before_call a midi_hub captured w) = Ok tt w1 ->
     mutate w1 = true ->
     heap w1 !! response_sequence w1 = Some response ->
     notes response <> [] ->
     (total_time response <=? tick_time)%float = true ->
     let new_start_time :=
       (response_start_time w1 + response_duration w1)%float in
     exists w',
       run_tick trim_note_sequence a midi_hub clock captured w = Ok true w' /\
       response_start_time w' = tick_time /\
       heap w' !! response_sequence w'
       = Some (retimed
                 (generated_response trim_note_sequence a midi_hub generator
                    response (response_start_time w1) new_start_time
                    (new_start_time + response_duration w1)%float)
                 (tick_time - new_start_time)%float) /\
       last (trace w')
       = Some (update_sequence (response_sequence w') (Some tick_time))).
Proof.
  intros Hstop Ht Hgen tick_time tick_duration generated. split.
  - intros Hnotes Hends Hmin.
    pose proof (run_tick_responds trim_note_sequence a midi_hub clock
                  captured w Hstop Ht Hnotes Hends Hmin) as Hrun.
    pose proof (respond_eq trim_note_sequence a midi_hub clock
                  (captured_ref w) (silent_tick_of captured w)
                  tick_time tick_duration
                  (world_before_call a midi_hub captured w)
                  (captured_with_qpm a midi_hub captured) generator
                  (world_before_call_captured a midi_hub captured w) Hgen)
      as Hrespond.
    cbv zeta in Hrespond.
    rewrite (world_before_call_keeps a midi_hub captor_start_time) in Hrespond
      by reflexivity.
    destruct Hrespond as (Hontime & Hlate & Hraise).
    split; [|split].
    + intros Hl. destruct (Hontime Hl) as (w1 & Hw1 & Hheap & Hstart & Hlast).
      exists w1. fold tick_time tick_duration. rewrite Hrun.
      fold tick_time tick_duration. rewrite Hw1. auto.
    + intros q Hl Hq.
      destruct (Hlate q Hl Hq) as (w1 & Hw1 & Hheap & Hstart & Hlast).
      exists w1. fold tick_time tick_duration. rewrite Hrun.
      fold tick_time tick_duration. rewrite Hw1. auto.
    + intros e Hl He. rewrite Hrun. fold tick_time tick_duration.
      by rewrite (Hraise e Hl He).
  - intros w1 response Hcall Hmutate Hresponse Hnotes Hended new_start_time.
    rewrite run_tick_stages by done. unfold bind at 1.
    fold tick_time tick_duration. rewrite Hcall.
    destruct (after_call_mutates trim_note_sequence a midi_hub tick_time w1
                response generator Hmutate Hresponse Hnotes Hended Hgen)
      as (w' & Hrun & _ & Hstart & _ & Hheap & _ & _ & seed & Htrace & _).
    exists w'. split; [exact Hrun|]. split; [exact Hstart|].
    split; [exact Hheap|].
    rewrite Htrace.
    change [log_generating (details_id generator);
            call_generate (details_id generator) seed
              (options_of a midi_hub (response_start_time w1)
                 (response_start_time w1 + response_duration w1)
                 (response_start_time w1 + response_duration w1
                  + response_duration w1));
            update_sequence (response_sequence w') (Some tick_time)]
      with ([log_generating (details_id generator);
             call_generate (details_id generator) seed
               (options_of a midi_hub (response_start_time w1)
                  (response_start_time w1 + response_duration w1)
                  (response_start_time w1 + response_duration w1
                   + response_duration w1))]
            ++ [update_sequence (response_sequence w') (Some tick_time)]).
    by rewrite app_assoc, last_snoc.
Qed.

Lemma late_response_pushed_witness :
  (let w := sample_world true false false in
   let tick_time := tick_time_of sample_call in
   let tick_duration := tick_duration_of sample_call w in
   call_ends sample_args silent_hub (end_call w)
     (silent_tick_of sample_call w) (listened_of sample_call w) = true /\
   _min_listen_ticks sample_args silent_hub <= listened_of sample_call w /\
   late one_tick_late tick_time tick_duration = true /\
   F.floordiv (time_at_push one_tick_late - tick_time)%float tick_duration
   = inr 1%float /\
   response_issued sample_trim sample_args silent_hub one_tick_late
     sample_call w
     (retimed
        (response_of sample_trim sample_args silent_hub sample_call w
           sample_generator)
        ((1 + 1) * tick_duration)%float)
     (tick_time + (1 + 1) * tick_duration)%float) /\
  (let w := world_with_response false false true in
   let clock := mkClock 1000 1000 in
   late clock (tick_time_of idle_capture) (tick_duration_of idle_capture w)
   = true /\
   exists w',
     run_tick sample_trim sample_args silent_hub clock idle_capture w
     = Ok true w' /\
     response_start_time w' = tick_time_of idle_capture).
Proof.
  cbv zeta. split.
  - assert (H1 : call_ends sample_args silent_hub
                   (end_call (sample_world true false false))
                   (silent_tick_of sample_call
                      (sample_world true false false))
                   (listened_of sample_call (sample_world true false false))
                 = true) by (vm_compute; reflexivity).
    assert (H2 : _min_listen_ticks sample_args silent_hub
                 <= listened_of sample_call (sample_world true false false))
      by (vm_compute; discriminate).
    assert (H3 : late one_tick_late (tick_time_of sample_call)
                   (tick_duration_of sample_call
                      (sample_world true false false)) = true)
      by (vm_compute; reflexivity).
    assert (H4 : F.floordiv
                   (time_at_push one_tick_late
                    - tick_time_of sample_call)%float
                   (tick_duration_of sample_call
                      (sample_world true false false))
                 = inr 1%float) by (vm_compute; reflexivity).
    split; [exact H1|]. split; [exact H2|]. split; [exact H3|].
    split; [exact H4|].
    destruct (late_response_pushed sample_trim sample_args silent_hub
                one_tick_late sample_call (sample_world true false false)
                sample_generator eq_refl ltac:(discriminate) eq_refl)
      as [Hcall _].
    destruct (Hcall ltac:(discriminate) H1 H2) as (_ & Hlate & _).
    exact (Hlate _ H3 H4).
  - split; [vm_compute; reflexivity|].
    destruct (late_response_pushed sample_trim sample_args silent_hub
                (mkClock 1000 1000) idle_capture
                (world_with_response false false true)
                sample_generator eq_refl ltac:(discriminate) eq_refl)
      as [_ Hmutation].
    edestruct Hmutation as (w' & Hrun & Hstart & _);
      [ vm_compute; reflexivity | reflexivity | vm_compute; reflexivity
      | discriminate | vm_compute; reflexivity |].
    exists w'. split; [exact Hrun | exact Hstart].
Defined.
